(** * typescript-json: runtime support of the validators and the schema application

    The first part embeds [src/module.ts]: the entry points that stop with
    [halt] when the transformer is not configured, [assertType.predicate]
    and [validate.predicate].  JavaScript exceptions are an explicit
    result type, the [IValidation] accumulator that [validate.predicate]
    mutates is threaded through as a state, and strings are sequences of
    characters indexed from zero.

    The second part concerns the JSON schema application, whose
    expected documents are the fixtures of [test/features/application]
    and whose compiler, absent from the sources, is modelled from the
    specification. *)

From Stdlib Require Import Ascii String ZArith.
From stdpp Require Import base option list strings gmap pretty.

#[local] Set Warnings "-register-all".

(* ===================================================================== *)
(** ** JavaScript strings *)
(* ===================================================================== *)

Module Js.

(** The double-quote character as a one-character string. *)
Definition dquote : string := String "034"%char EmptyString.

(** [s.substring(start, end)] for non-negative integer arguments: both
    indices are clamped to the length of [s] and swapped when
    [start > end]. *)
Definition substring (s : string) (start stop : nat) : string :=
  let a := Nat.min start (String.length s) in
  let b := Nat.min stop (String.length s) in
  String.substring (Nat.min a b) (Nat.max a b - Nat.min a b) s.

(** [s.includes(sub)]. *)
Fixpoint includes (s sub : string) : bool :=
  String.prefix sub s
  || match s with
     | EmptyString => false
     | String _ s' => includes s' sub
     end.

End Js.

(* ===================================================================== *)
(** ** Exceptions *)
(* ===================================================================== *)

(** Runtime values ([unknown] in the source) are never inspected by the
    functions below; their type is a parameter [Value] throughout. *)

(** [TypeGuardError.IProps].  [path] is optional: [stringify.throws]
    builds the error from [expected] and [value] alone. *)
Record IProps (Value : Type) : Type := mkProps {
  method : string;
  props_path : option string;
  props_expected : string;
  props_value : Value
}.

Arguments mkProps {Value}.
Arguments method {Value}.
Arguments props_path {Value}.
Arguments props_expected {Value}.
Arguments props_value {Value}.

(** What a closure handed to [assertType.predicate] returns:
    [Omit<TypeGuardError.IProps, "method">]. *)
Record IPropsNoMethod (Value : Type) : Type := mkPropsNoMethod {
  nm_path : option string;
  nm_expected : string;
  nm_value : Value
}.

Arguments mkPropsNoMethod {Value}.
Arguments nm_path {Value}.
Arguments nm_expected {Value}.
Arguments nm_value {Value}.

(** What [stringify.throws] receives:
    [Pick<TypeGuardError.IProps, "expected" | "value">]. *)
Record IPropsExpectedValue (Value : Type) : Type := mkPropsExpectedValue {
  ev_expected : string;
  ev_value : Value
}.

Arguments mkPropsExpectedValue {Value}.
Arguments ev_expected {Value}.
Arguments ev_value {Value}.

Inductive exn (Value : Type) : Type :=
| TypeGuardError (props : IProps Value)
| Error (message : string)
| TypeError (message : string).

Arguments TypeGuardError {Value}.
Arguments Error {Value}.
Arguments TypeError {Value}.

(** The outcome of a call: a returned value or a thrown exception. *)
Inductive result (Value A : Type) : Type :=
| Return (a : A)
| Throw (e : exn Value).

Arguments Return {Value A}.
Arguments Throw {Value A}.

Definition bind {Value A B} (m : result Value A) (k : A -> result Value B)
    : result Value B :=
  match m with
  | Return a => k a
  | Throw e => Throw e
  end.

(* ===================================================================== *)
(** ** [halt] and the entry points *)
(* ===================================================================== *)

Definition halt {Value A} (name : string) : result Value A :=
  Throw (Error
    ("Error on TSON." +:+ name +:+
     "(): no transform has been configured. Configure the " +:+ Js.dquote +:+
     "tsconfig.json" +:+ Js.dquote +:+
     " file following the [README.md#setup](https://github.com/samchon/typescript-json#setup)")).

(* ===================================================================== *)
(** ** [IValidation] *)
(* ===================================================================== *)

Record IError (Value : Type) : Type := mkError {
  path : string;
  expected : string;
  value : Value
}.

Arguments mkError {Value}.
Arguments path {Value}.
Arguments expected {Value}.
Arguments value {Value}.

Record IValidation (Value : Type) : Type := mkValidation {
  success : bool;
  errors : list (IError Value)
}.

Arguments mkValidation {Value}.
Arguments success {Value}.
Arguments errors {Value}.

(** The implementations behind the overloads take no parameter: whatever
    the caller passes is ignored.  ([is] is reserved in Rocq.) *)
Definition assertType {Value T} (input : Value) : result Value T :=
  halt "assertType".
Definition is_ {Value} (input : Value) : result Value bool := halt "is".
Definition validate {Value} (input : Value) : result Value (IValidation Value) :=
  halt "validate".
Definition stringify {Value} (input : Value) : result Value string :=
  halt "stringify".
Definition create {Value T} (input : T) : result Value T := halt "create".
Definition application {Value App} : result Value App := halt "application".

(* ===================================================================== *)
(** ** [assertType.predicate] *)
(* ===================================================================== *)

Module assertType.

Definition predicate {Value} (matched exceptionable : bool)
    (closure : unit -> IPropsNoMethod Value) : result Value bool :=
  if Bool.eqb matched false && Bool.eqb exceptionable true then
    let c := closure tt in
    Throw (TypeGuardError
      {| method := "TSON.assertType";
         props_path := nm_path c;
         props_expected := nm_expected c;
         props_value := nm_value c |})
  else Return matched.

End assertType.

(* ===================================================================== *)
(** ** [stringify.throws] *)
(* ===================================================================== *)

Module stringify.

Definition throws {Value} (props : IPropsExpectedValue Value)
    : result Value unit :=
  Throw (TypeGuardError
    {| method := "TSON.stringify";
       props_path := None;
       props_expected := ev_expected props;
       props_value := ev_value props |}).

End stringify.

(* ===================================================================== *)
(** ** [validate.predicate] *)
(* ===================================================================== *)

Module validate.

(** [res.errors[res.errors.length - 1]!.path]: reading [path] from the
    [undefined] that an index out of range yields is a [TypeError].  (On
    the empty array the index is -1; the truncated subtraction gives 0,
    out of range as well.) *)
Definition last_path {Value} (res : IValidation Value) : result Value string :=
  match errors res !! (length (errors res) - 1) with
  | Some e => Return (path e)
  | None => Throw (TypeError "Cannot read properties of undefined (reading 'path')")
  end.

(** The condition under which the traced error is not pushed. *)
Definition covered {Value} (last : string) (error : IError Value) : bool :=
  (String.length (path error) <=? String.length last)
  && String.eqb (Js.substring last 0 (String.length (path error))) (path error).

(** The body of the immediately invoked arrow function: it returns the
    accumulator as it leaves it. *)
Definition trace {Value} (res : IValidation Value)
    (closure : unit -> IError Value) : result Value (IValidation Value) :=
  (* res.success &&= false *)
  let res := {| success := if success res then false else success res;
                errors := errors res |} in
  let error := closure tt in
  let push := Return {| success := success res;
                        errors := errors res ++ [error] |} in
  if negb (length (errors res) =? 0) then
    bind (last_path res) (fun last =>
      if covered last error then Return res else push)
  else push.

Definition predicate {Value} (res : IValidation Value)
    (matched exceptionable : bool) (closure : unit -> IError Value)
    : result Value (bool * IValidation Value) :=
  if Bool.eqb matched false && Bool.eqb exceptionable true then
    bind (trace res closure) (fun res' => Return (matched, res'))
  else Return (matched, res).

End validate.

(* ===================================================================== *)
(** ** Sequences of check sites *)
(* ===================================================================== *)

(** A validation plan calls the predicate of its surface at one check
    site after another.  A site is the triple of arguments it passes; the
    closure is a function that returns its record, as its type says. *)
Definition Site (E : Type) : Type := (bool * bool * (unit -> E))%type.

(** The throwing surface: the sites in order, until one throws. *)
Fixpoint assert_all {Value} (sites : list (Site (IPropsNoMethod Value)))
    : result Value (list bool) :=
  match sites with
  | [] => Return []
  | (matched, exceptionable, closure) :: rest =>
      bind (assertType.predicate matched exceptionable closure) (fun b =>
      bind (assert_all rest) (fun bs => Return (b :: bs)))
  end.

(** The accumulating surface: the sites in order on one accumulator. *)
Fixpoint validate_all {Value} (res : IValidation Value)
    (sites : list (Site (IError Value)))
    : result Value (list bool * IValidation Value) :=
  match sites with
  | [] => Return ([], res)
  | (matched, exceptionable, closure) :: rest =>
      bind (validate.predicate res matched exceptionable closure) (fun r =>
      bind (validate_all r.2 rest) (fun rs => Return (r.1 :: rs.1, rs.2)))
  end.

(** [p] is a prefix of [s]; [s] extends [p] by at least one character. *)
Definition is_prefix (p s : string) : Prop := exists t, s = p +:+ t.
Definition strict_extension (p s : string) : Prop :=
  exists t, t <> EmptyString /\ s = p +:+ t.

(** A fresh accumulator, and two errors one level apart. *)
Definition fresh : IValidation unit := {| success := true; errors := [] |}.
Definition parent_error : IError unit :=
  {| path := "$input.a.b"; expected := "Object"; value := tt |}.
Definition child_error : IError unit :=
  {| path := "$input.a.b.c"; expected := "string"; value := tt |}.

(** The suppression rule in the direction of the specification: an error
    whose path strictly extends the path of the last recorded error is
    not appended. *)
Definition child_dropped {Value} (res : IValidation Value)
    (error : IError Value) : Prop :=
  forall last_error,
    last (errors res) = Some last_error ->
    strict_extension (path last_error) (path error) ->
    exists res',
      validate.predicate res false true (fun _ => error) = Return (false, res')
      /\ errors res' = errors res.

(** A site is fatal when its mismatch is to be reported. *)
Definition fatal {E} (site : Site E) : bool := negb site.1.1 && site.1.2.
Definition matched_of {E} (site : Site E) : bool := site.1.1.

(** The exception [assertType.predicate] builds from a closure. *)
Definition guard_error {Value} (closure : unit -> IPropsNoMethod Value)
    : exn Value :=
  TypeGuardError
    {| method := "TSON.assertType";
       props_path := nm_path (closure tt);
       props_expected := nm_expected (closure tt);
       props_value := nm_value (closure tt) |}.

(** Whether the error of a fatal site is left out, given the accumulator
    it meets. *)
Definition suppressed {Value} (res : IValidation Value)
    (error : IError Value) : bool :=
  match last (errors res) with
  | Some l => validate.covered (path l) error
  | None => false
  end.

(** The sentence that tells the caller what to do, and what it takes for
    an outcome to be the misuse error of the entry point [name]. *)
Definition setup_instruction : string :=
  "Configure the " +:+ Js.dquote +:+ "tsconfig.json" +:+ Js.dquote +:+
  " file following the [README.md#setup](https://github.com/samchon/typescript-json#setup)".

Definition misuse_error {Value A} (name : string) (r : result Value A) : Prop :=
  exists message,
    r = Throw (Error message)
    /\ Js.includes message ("TSON." +:+ name +:+ "()") = true
    /\ Js.includes message setup_instruction = true.

(** The accumulator after the parent-level error alone, and after the
    child-level error alone. *)
Definition res_parent_recorded : IValidation unit :=
  {| success := false; errors := [parent_error] |}.
Definition res_child_recorded : IValidation unit :=
  {| success := false; errors := [child_error] |}.

(** No recorded error is directly followed by one whose path is a prefix
    of its own path. *)
Definition no_redundant_successor {Value} (errs : list (IError Value)) : Prop :=
  forall before a b after,
    errs = before ++ a :: b :: after -> ~ is_prefix (path b) (path a).

(* ===================================================================== *)
(** * The JSON schema application *)
(* ===================================================================== *)

(** The sources hold the call stub [application] and, as fixtures, the
    documents that [test/features/application] expects; the transformer
    that computes a document from a type is not among them.  The
    documents are transcribed from the tests.  The Type IR, the registry
    and the Schema Compiler are modelled from the specification, and every
    definition that is says so. *)

(** JSON documents, as the object literals of the fixtures: the fields of
    an object keep their order.  The only numbers of the fixtures are
    integers. *)
Inductive Json : Type :=
| JNull
| JBoolean (b : bool)
| JNumber (n : Z)
| JString (s : string)
| JArray (items : list Json)
| JObject (fields : list (string * Json)).

(** [o[k]] and [o[k] = v] on the fields of an object: a key that is
    already there keeps its place, a new one goes last. *)
Fixpoint get {A} (k : string) (fields : list (string * A)) : option A :=
  match fields with
  | [] => None
  | (k', v) :: rest => if String.eqb k' k then Some v else get k rest
  end.

Fixpoint set {A} (k : string) (v : A) (fields : list (string * A))
    : list (string * A) :=
  match fields with
  | [] => [(k, v)]
  | (k', v') :: rest =>
      if String.eqb k' k then (k, v) :: rest else (k', v') :: set k v rest
  end.

(** The two dialects, and the default [Prefix] of [application] in
    [module.ts]. *)
Inductive Purpose : Type := swagger | ajv.

Definition purpose_name (purpose : Purpose) : string :=
  match purpose with swagger => "swagger" | ajv => "ajv" end.

Definition default_prefix (purpose : Purpose) : string :=
  match purpose with
  | swagger => "#/components/schemas"
  | ajv => "components#/schemas"
  end.

(* ===================================================================== *)
(** ** Type IR *)
(* ===================================================================== *)

(** Modelled from the spec: the kinds of primitive of the Type IR of
    section 3, which the front-end that is not part of the sources
    produces. *)
Inductive Atomic : Type :=
| a_string | a_number | a_boolean | a_bigint | a_null | a_undefined | a_unknown.

(** Modelled from the spec: the fixed-format tags of a primitive. *)
Inductive Format : Type := uuid | email | url | ipv4 | ipv6.

(** Modelled from the spec: the members of a literal enum. *)
Inductive Literal : Type :=
| l_string (s : string)
| l_number (n : Z)
| l_boolean (b : bool).

(** Modelled from the spec: the edge into a node, which carries the
    nullability of the value. *)
Record Edge (T : Type) : Type := mkEdge {
  edge_nullable : bool;
  edge_type : T
}.

Arguments mkEdge {T}.
Arguments edge_nullable {T}.
Arguments edge_type {T}.

(** Modelled from the spec: a property of an object, its name, whether
    it is required (not optional) and the edge to its type. *)
Record Property (T : Type) : Type := mkProperty {
  prop_key : string;
  prop_required : bool;
  prop_edge : Edge T
}.

Arguments mkProperty {T}.
Arguments prop_key {T}.
Arguments prop_required {T}.
Arguments prop_edge {T}.

(** Modelled from the spec: the variants of a Type IR node.  An object
    is anonymous when it has no [name], which stands for the origin tag as
    well; an intersection carries the declaration (name and documentation
    tags) of the object it merges into, as the intersection fixture has
    its one component under the name of the intersection; a [reference]
    names the registered node it points back to.  Documentation tags are
    kept as the JSON values they are emitted as. *)
Inductive TypeIR : Type :=
| primitive (kind : Atomic) (format : option Format)
    (literals : option (list Literal))
| array (element : Edge TypeIR)
| tuple (elements : list (Edge TypeIR))
| object (name : option string) (jsDocTags : list Json)
    (properties : list (Property TypeIR))
| union (alternatives : list TypeIR)
| intersection (name : option string) (jsDocTags : list Json)
    (members : list TypeIR)
| reference (name : string).

(* ===================================================================== *)
(** ** Components registry *)
(* ===================================================================== *)

(** Modelled from the spec: the components registry of one compile, the
    named fragments in the order they were entered, with the counter of
    anonymous shapes of every container. *)
Record Registry : Type := mkRegistry {
  schemas : list (string * Json);
  counters : gmap string nat
}.

(** Modelled from the spec: the registry at the start of a compile. *)
Definition empty_registry : Registry :=
  {| schemas := []; counters := ∅ |}.

(** Modelled from the spec: whether a name has been entered. *)
Definition registered (name : string) (reg : Registry) : bool :=
  bool_decide (is_Some (get name (schemas reg))).

(** Modelled from the spec: the compile-time modelling errors of
    section 7. *)
Inductive CompileError : Type :=
| property_collision (key : string)
| non_object_member
| unresolved_reference (name : string)
| name_collision (name : string).

(** Modelled from the spec: a step of the compile, which reads and
    extends the registry or aborts the compile. *)
Definition Compile (A : Type) : Type :=
  Registry -> CompileError + (A * Registry).

(** Modelled from the spec: the steps of a list in order, the registry
    handed from one to the next; the first error aborts. *)
Definition traverse {A B} (f : A -> Compile B) : list A -> Compile (list B) :=
  fix go (l : list A) (reg : Registry) {struct l} :=
    match l with
    | [] => inr ([], reg)
    | a :: rest =>
        match f a reg with
        | inl e => inl e
        | inr (b, reg1) =>
            match go rest reg1 with
            | inl e => inl e
            | inr (bs, reg2) => inr (b :: bs, reg2)
            end
        end
    end.

(** Modelled from the spec: the outcomes of naming an object, a name
    already entered, a generated name that is taken, or a new name with
    the container of the properties and the registry with its counter. *)
Inductive Naming : Type :=
| Known (name : string)
| Clash (name : string)
| Fresh (name container : string) (reg : Registry).

(** Modelled from the spec: the naming rule of section 3.  A declared
    name is kept, and a declared type already entered is not lowered
    again; an anonymous shape under the container [c] is [c.o<N>] with the
    next count of [c], counted from 1; an anonymous shape under no
    container is [__type] and is the container of its anonymous
    descendants.  The specification asks for unique names and does not
    say what happens to a generated name that is taken: here it aborts
    the compile. *)
Definition resolve_name (declared container : option string) (reg : Registry)
    : Naming :=
  match declared with
  | Some n => if registered n reg then Known n else Fresh n n reg
  | None =>
      match container with
      | None =>
          if registered "__type" reg then Clash "__type"
          else Fresh "__type" "__type" reg
      | Some c =>
          let count := S (default 0 (counters reg !! c)) in
          let n := c +:+ ".o" +:+ pretty count in
          if registered n reg then Clash n
          else Fresh n c {| schemas := schemas reg;
                            counters := <[c := count]> (counters reg) |}
      end
  end.

(** Modelled from the spec: entering a name reserves its place in the
    registry, so that the entries come in the order the objects are met
    (as in the fixtures) and a back-reference finds the name; the
    fragment is put there once the properties have been lowered. *)
Definition reserve (name : string) (reg : Registry) : Registry :=
  {| schemas := set name (JObject []) (schemas reg); counters := counters reg |}.

(** Modelled from the spec: see [reserve]. *)
Definition fill (name : string) (fragment : Json) (reg : Registry) : Registry :=
  {| schemas := set name fragment (schemas reg); counters := counters reg |}.

(* ===================================================================== *)
(** ** Lowering rules *)
(* ===================================================================== *)

(** Modelled from the spec: the [type] of a primitive fragment.  The
    fixtures show string, number and boolean. *)
Definition type_name (kind : Atomic) : string :=
  match kind with
  | a_string => "string"
  | a_number => "number"
  | a_boolean => "boolean"
  | a_bigint => "bigint"
  | a_null => "null"
  | a_undefined => "undefined"
  | a_unknown => "unknown"
  end.

(** Modelled from the spec: a literal as a member of [enum]. *)
Definition literal_json (l : Literal) : Json :=
  match l with
  | l_string s => JString s
  | l_number n => JNumber n
  | l_boolean b => JBoolean b
  end.

(** Modelled from the spec: the fragment of a primitive as section 4.1
    has it, [type], [enum] when there is a literal enum, and [nullable],
    the keys in the order of the fixtures.  A fully-open type is the
    empty fragment. *)
Definition primitive_fragment (kind : Atomic) (literals : option (list Literal))
    (nullable : bool) : Json :=
  match kind with
  | a_unknown => JObject []
  | _ =>
      JObject ([("type", JString (type_name kind))]
               ++ match literals with
                  | Some ls => [("enum", JArray (map literal_json ls))]
                  | None => []
                  end
               ++ [("nullable", JBoolean nullable)])
  end.

(** Modelled from the spec: the fragment of an array. *)
Definition array_fragment (items : Json) (nullable : bool) : Json :=
  JObject [("type", JString "array"); ("items", items);
           ("nullable", JBoolean nullable)].

(** Modelled from the spec: the fragment of a union, a pure wrapper. *)
Definition oneOf_fragment (alternatives : list Json) : Json :=
  JObject [("oneOf", JArray alternatives)].

(** Modelled from the spec: a tuple is an array of fixed length, which
    [minItems] and [maxItems] state; for swagger its [items] is one
    schema, the alternatives of the elements, for ajv the list of the
    element schemas.  The specification fixes no more than that the two
    purposes differ; no fixture shows a tuple. *)
Definition tuple_fragment (purpose : Purpose) (items : list Json)
    (nullable : bool) : Json :=
  JObject [("type", JString "array");
           ("items", match purpose with
                     | swagger => oneOf_fragment items
                     | ajv => JArray items
                     end);
           ("minItems", JNumber (Z.of_nat (length items)));
           ("maxItems", JNumber (Z.of_nat (length items)));
           ("nullable", JBoolean nullable)].

(** Modelled from the spec: the reference to a component, the prefix
    before its name as in the fixtures. *)
Definition ref_fragment (prefix name : string) : Json :=
  JObject [("$ref", JString (prefix +:+ "/" +:+ name))].

(** Modelled from the spec: [required], the names of the properties
    that are not optional, in the order of declaration. *)
Definition required_keys (properties : list (Property TypeIR)) : list string :=
  map prop_key (filter (fun p => prop_required p = true) properties).

(** Modelled from the spec: the fragment of an object as it stands in
    the registry.  The entry is shared by every edge into the type; its
    [nullable] is false, as in every fixture. *)
Definition object_fragment (fields : list (string * Json))
    (required : list string) (tags : list Json) : Json :=
  JObject [("type", JString "object"); ("properties", JObject fields);
           ("nullable", JBoolean false);
           ("required", JArray (map JString required));
           ("jsDocTags", JArray tags)].

(** Modelled from the spec: the properties a member brings to an
    intersection. *)
Definition member_properties (member : TypeIR) : list (Property TypeIR) :=
  match member with
  | object _ _ properties => properties
  | _ => []
  end.

(** Modelled from the spec: the members an intersection may have. *)
Definition is_object (t : TypeIR) : bool :=
  match t with object _ _ _ => true | _ => false end.

(** Modelled from the spec: the first name that occurs twice, the
    collision of property names across the members of an intersection. *)
Fixpoint first_duplicate (keys : list string) : option string :=
  match keys with
  | [] => None
  | k :: rest =>
      if bool_decide (k ∈ rest) then Some k else first_duplicate rest
  end.

(** Modelled from the spec: the field a lowered property becomes. *)
Definition with_key {A} (k : string) (r : CompileError + (A * Registry))
    : CompileError + ((string * A) * Registry) :=
  match r with
  | inl e => inl e
  | inr (a, reg) => inr ((k, a), reg)
  end.

(** Modelled from the spec: the Schema Compiler of section 4.1 on one
    node, reached through an edge of nullability [nullable] from inside
    the container [container].  Every object, declared or anonymous, is
    hoisted into the registry and referenced by [$ref]: the rule allows
    it, and the primitive fixture shows it for anonymous shapes that do
    not recur.  The alternatives of a union take the nullability of the
    edge into the union, as the wrapper has no [nullable] (the aliased
    fixture).  The members of an intersection must be objects and their
    properties are merged in order under the declaration of the
    intersection; a name that two members share aborts the compile. *)
Fixpoint lower (purpose : Purpose) (prefix : string)
    (container : option string) (nullable : bool) (t : TypeIR)
    (reg : Registry) {struct t} : CompileError + (Json * Registry) :=
  match t with
  | primitive kind _ literals =>
      inr (primitive_fragment kind literals nullable, reg)
  | array (mkEdge n element) =>
      match lower purpose prefix container n element reg with
      | inl e => inl e
      | inr (items, reg') => inr (array_fragment items nullable, reg')
      end
  | tuple elements =>
      match traverse
              (fun e => match e with
                        | mkEdge n element =>
                            lower purpose prefix container n element
                        end)
              elements reg with
      | inl e => inl e
      | inr (items, reg') => inr (tuple_fragment purpose items nullable, reg')
      end
  | union alternatives =>
      match traverse (lower purpose prefix container nullable)
              alternatives reg with
      | inl e => inl e
      | inr (fragments, reg') => inr (oneOf_fragment fragments, reg')
      end
  | object name tags properties =>
      match resolve_name name container reg with
      | Known n => inr (ref_fragment prefix n, reg)
      | Clash n => inl (name_collision n)
      | Fresh n c reg1 =>
          match traverse
                  (fun p => match p with
                            | mkProperty k _ (mkEdge nl ty) =>
                                fun r => with_key k
                                  (lower purpose prefix (Some c) nl ty r)
                            end)
                  properties (reserve n reg1) with
          | inl e => inl e
          | inr (fields, reg2) =>
              inr (ref_fragment prefix n,
                   fill n (object_fragment fields (required_keys properties)
                             tags) reg2)
          end
      end
  | intersection name tags members =>
      if negb (forallb is_object members) then inl non_object_member
      else
        match first_duplicate
                (map prop_key (concat (map member_properties members))) with
        | Some k => inl (property_collision k)
        | None =>
            match resolve_name name container reg with
            | Known n => inr (ref_fragment prefix n, reg)
            | Clash n => inl (name_collision n)
            | Fresh n c reg1 =>
                match traverse
                        (fun m => match m with
                           | object _ _ properties =>
                               traverse
                                 (fun p => match p with
                                    | mkProperty k _ (mkEdge nl ty) =>
                                        fun r => with_key k
                                          (lower purpose prefix (Some c) nl ty r)
                                    end)
                                 properties
                           | _ => fun _ => inl non_object_member
                           end)
                        members (reserve n reg1) with
                | inl e => inl e
                | inr (fields, reg2) =>
                    inr (ref_fragment prefix n,
                         fill n (object_fragment (concat fields)
                                   (required_keys
                                      (concat (map member_properties members)))
                                   tags) reg2)
                end
            end
        end
  | reference name =>
      if registered name reg then inr (ref_fragment prefix name, reg)
      else inl (unresolved_reference name)
  end.

(** Modelled from the spec: [buildSchemaApplication] of section 6, one
    fragment per requested root type in request order, over a registry
    that starts empty with every compile.  A root is reached through no
    edge and no container.  The document has the keys of the fixtures. *)
Definition buildSchemaApplication (roots : list TypeIR) (purpose : Purpose)
    (prefix : string) : CompileError + Json :=
  match traverse (lower purpose prefix None false) roots empty_registry with
  | inl e => inl e
  | inr (fragments, reg) =>
      inr (JObject
             [("schemas", JArray fragments);
              ("components", JObject [("schemas", JObject (schemas reg))]);
              ("purpose", JString (purpose_name purpose));
              ("prefix", JString prefix)])
  end.

(* ===================================================================== *)
(** ** The fixtures of [test/features/application] *)
(* ===================================================================== *)

(** The document [test_application_object_alias] expects of
    [TSON.application<[ObjectAlias]>()]. *)
Definition test_application_object_alias : Json :=
  JObject
    [("schemas", JArray
        [JObject
           [("type", JString "array");
            ("items", JObject
               [("$ref", JString "#/components/schemas/ObjectAlias.IMember")]);
            ("nullable", JBoolean false)]]);
     ("components", JObject
        [("schemas", JObject
            [("ObjectAlias.IMember", JObject
                [("type", JString "object");
                 ("properties", JObject
                    [("id", JObject
                        [("type", JString "string");
                         ("nullable", JBoolean true)]);
                     ("email", JObject
                        [("type", JString "string");
                         ("nullable", JBoolean false)]);
                     ("name", JObject
                        [("type", JString "string");
                         ("nullable", JBoolean false)]);
                     ("sex", JObject
                        [("oneOf", JArray
                            [JObject
                               [("type", JString "number");
                                ("enum", JArray [JNumber 2; JNumber 1]);
                                ("nullable", JBoolean true)];
                             JObject
                               [("type", JString "string");
                                ("enum", JArray
                                   [JString "male";
                                    JString "female"]);
                                ("nullable", JBoolean true)]])]);
                     ("age", JObject
                        [("type", JString "number");
                         ("nullable", JBoolean true)]);
                     ("dead", JObject
                        [("type", JString "boolean");
                         ("nullable", JBoolean true)])]);
                 ("nullable", JBoolean false);
                 ("required", JArray
                    [JString "id";
                     JString "email";
                     JString "name";
                     JString "sex";
                     JString "age";
                     JString "dead"]);
                 ("jsDocTags", JArray [])])])]);
     ("purpose", JString "swagger");
     ("prefix", JString "#/components/schemas")].

(** The document [test_application_object_primitive] expects of
    [TSON.application<[ObjectPrimitive]>()]. *)
Definition test_application_object_primitive : Json :=
  JObject
    [("schemas", JArray
        [JObject [("$ref", JString "#/components/schemas/__type")]]);
     ("components", JObject
        [("schemas", JObject
            [("__type", JObject
                [("type", JString "object");
                 ("properties", JObject
                    [("id", JObject
                        [("type", JString "string");
                         ("nullable", JBoolean false)]);
                     ("extension", JObject
                        [("type", JString "string");
                         ("enum", JArray
                            [JString "txt";
                             JString "md";
                             JString "html"]);
                         ("nullable", JBoolean false)]);
                     ("title", JObject
                        [("type", JString "string");
                         ("nullable", JBoolean false)]);
                     ("body", JObject
                        [("type", JString "string");
                         ("nullable", JBoolean false)]);
                     ("files", JObject
                        [("type", JString "array");
                         ("items", JObject
                            [("$ref", JString "#/components/schemas/__type.o1")]);
                         ("nullable", JBoolean false)]);
                     ("secret", JObject
                        [("type", JString "boolean");
                         ("nullable", JBoolean false)]);
                     ("created_at", JObject
                        [("type", JString "string");
                         ("nullable", JBoolean false)])]);
                 ("nullable", JBoolean false);
                 ("required", JArray
                    [JString "id";
                     JString "extension";
                     JString "title";
                     JString "body";
                     JString "files";
                     JString "secret";
                     JString "created_at"]);
                 ("jsDocTags", JArray [])]);
             ("__type.o1", JObject
                [("type", JString "object");
                 ("properties", JObject
                    [("id", JObject
                        [("type", JString "string");
                         ("nullable", JBoolean false)]);
                     ("name", JObject
                        [("type", JString "string");
                         ("nullable", JBoolean false)]);
                     ("extension", JObject
                        [("type", JString "string");
                         ("nullable", JBoolean false)]);
                     ("url", JObject
                        [("type", JString "string");
                         ("nullable", JBoolean false)]);
                     ("created_at", JObject
                        [("type", JString "string");
                         ("nullable", JBoolean false)])]);
                 ("nullable", JBoolean false);
                 ("required", JArray
                    [JString "id";
                     JString "name";
                     JString "extension";
                     JString "url";
                     JString "created_at"]);
                 ("jsDocTags", JArray [])])])]);
     ("purpose", JString "swagger");
     ("prefix", JString "#/components/schemas")].

(** The document [test_application_object_intersection] expects of
    [TSON.application<[ObjectIntersection]>()]. *)
Definition test_application_object_intersection : Json :=
  JObject
    [("schemas", JArray
        [JObject
           [("$ref", JString "#/components/schemas/ObjectIntersection")]]);
     ("components", JObject
        [("schemas", JObject
            [("ObjectIntersection", JObject
                [("type", JString "object");
                 ("properties", JObject
                    [("email", JObject
                        [("type", JString "string");
                         ("nullable", JBoolean false)]);
                     ("name", JObject
                        [("type", JString "string");
                         ("nullable", JBoolean false)]);
                     ("vulnerable", JObject
                        [("type", JString "boolean");
                         ("nullable", JBoolean false)])]);
                 ("nullable", JBoolean false);
                 ("required", JArray
                    [JString "email";
                     JString "name";
                     JString "vulnerable"]);
                 ("jsDocTags", JArray [])])])]);
     ("purpose", JString "swagger");
     ("prefix", JString "#/components/schemas")].

(** The document [test_application_object_closure] expects of
    [TSON.application<[ObjectClosure]>()]. *)
Definition test_application_object_closure : Json :=
  JObject
    [("schemas", JArray
        [JObject
           [("$ref", JString "#/components/schemas/ObjectClosure.IRecord")]]);
     ("components", JObject
        [("schemas", JObject
            [("ObjectClosure.IRecord", JObject
                [("type", JString "object");
                 ("properties", JObject
                    [("id", JObject
                        [("type", JString "string");
                         ("nullable", JBoolean false)]);
                     ("open", JObject [])]);
                 ("nullable", JBoolean false);
                 ("required", JArray [JString "id"; JString "open"]);
                 ("jsDocTags", JArray [])])])]);
     ("purpose", JString "swagger");
     ("prefix", JString "#/components/schemas")].

(** The document [test_application_array_union] expects of
    [TSON.application<[ArrayUnion]>()]. *)
Definition test_application_array_union : Json :=
  JObject
    [("schemas", JArray
        [JObject
           [("type", JString "array");
            ("items", JObject
               [("oneOf", JArray
                   [JObject
                      [("type", JString "array");
                       ("items", JObject
                          [("type", JString "string");
                           ("nullable", JBoolean false)]);
                       ("nullable", JBoolean false)];
                    JObject
                      [("type", JString "array");
                       ("items", JObject
                          [("type", JString "boolean");
                           ("nullable", JBoolean false)]);
                       ("nullable", JBoolean false)];
                    JObject
                      [("type", JString "array");
                       ("items", JObject
                          [("type", JString "number");
                           ("nullable", JBoolean false)]);
                       ("nullable", JBoolean false)]])]);
            ("nullable", JBoolean false)]]);
     ("components", JObject [("schemas", JObject [])]);
     ("purpose", JString "swagger");
     ("prefix", JString "#/components/schemas")].


(* ===================================================================== *)
(** ** The types of the fixtures *)
(* ===================================================================== *)

(** Modelled from the spec: a primitive without format or literals, and
    a literal enum. *)
Definition atomic (kind : Atomic) : TypeIR := primitive kind None None.
Definition enum (kind : Atomic) (literals : list Literal) : TypeIR :=
  primitive kind None (Some literals).

(** Modelled from the spec: a property that is not optional. *)
Definition property (key : string) (nullable : bool) (t : TypeIR)
    : Property TypeIR :=
  mkProperty key true (mkEdge nullable t).

(** Modelled from the spec: the Type IR of [ObjectAlias], the aliased
    object of section 8, an array of the declared [ObjectAlias.IMember];
    [test/structures] is not part of the sources.  The literals are in
    the order the fixture shows them. *)
Definition ObjectAlias_IMember : TypeIR :=
  object (Some "ObjectAlias.IMember") []
    [property "id" true (atomic a_string);
     property "email" false (atomic a_string);
     property "name" false (atomic a_string);
     property "sex" true
       (union [enum a_number [l_number 2; l_number 1];
               enum a_string [l_string "male"; l_string "female"]]);
     property "age" true (atomic a_number);
     property "dead" true (atomic a_boolean)].

Definition ObjectAlias : TypeIR := array (mkEdge false ObjectAlias_IMember).

(** Modelled from the spec: the Type IR of [ObjectPrimitive], an object
    type without a name whose [files] are objects without a name. *)
Definition ObjectPrimitive_IFile : TypeIR :=
  object None []
    [property "id" false (atomic a_string);
     property "name" false (atomic a_string);
     property "extension" false (atomic a_string);
     property "url" false (atomic a_string);
     property "created_at" false (atomic a_string)].

Definition ObjectPrimitive : TypeIR :=
  object None []
    [property "id" false (atomic a_string);
     property "extension" false
       (enum a_string [l_string "txt"; l_string "md"; l_string "html"]);
     property "title" false (atomic a_string);
     property "body" false (atomic a_string);
     property "files" false (array (mkEdge false ObjectPrimitive_IFile));
     property "secret" false (atomic a_boolean);
     property "created_at" false (atomic a_string)].

(** Modelled from the spec: the Type IR of [ObjectIntersection], the
    intersection of object types with one property each. *)
Definition ObjectIntersection : TypeIR :=
  intersection (Some "ObjectIntersection") []
    [object (Some "ObjectIntersection.IEmail") []
       [property "email" false (atomic a_string)];
     object (Some "ObjectIntersection.IName") []
       [property "name" false (atomic a_string)];
     object (Some "ObjectIntersection.IVulnerable") []
       [property "vulnerable" false (atomic a_boolean)]].

(** Modelled from the spec: the Type IR of [ObjectClosure], a declared
    object with a property of a fully-open type. *)
Definition ObjectClosure : TypeIR :=
  object (Some "ObjectClosure.IRecord") []
    [property "id" false (atomic a_string);
     property "open" false (atomic a_unknown)].

(** Modelled from the spec: the Type IR of [ArrayUnion], an array of
    arrays of strings, of booleans or of numbers. *)
Definition ArrayUnion : TypeIR :=
  array (mkEdge false
    (union [array (mkEdge false (atomic a_string));
            array (mkEdge false (atomic a_boolean));
            array (mkEdge false (atomic a_number))])).

(* ===================================================================== *)
(** ** The nullability rule of fragments *)
(* ===================================================================== *)

Definition has_key {A} (k : string) (fields : list (string * A)) : bool :=
  bool_decide (is_Some (get k fields)).

Definition is_empty (fields : list (string * Json)) : bool :=
  match fields with [] => true | _ => false end.

(** A pure [$ref] fragment and a pure [oneOf] wrapper have that one key. *)
Definition is_ref (fields : list (string * Json)) : bool :=
  match fields with
  | [(k, JString _)] => String.eqb k "$ref"
  | _ => false
  end.

Definition is_oneOf (fields : list (string * Json)) : bool :=
  match fields with
  | [(k, JArray _)] => String.eqb k "oneOf"
  | _ => false
  end.

Definition carries_nullable (fields : list (string * Json)) : bool :=
  match get "nullable" fields with
  | Some (JBoolean _) => true
  | _ => false
  end.

(** The rule for one fragment, by its shape alone: the three bare shapes
    have no [nullable] key, every other fragment has one and it is a
    boolean.  Which shape the fragment of a type has is what [conforms]
    says. *)
Definition nullable_rule (fields : list (string * Json)) : bool :=
  if is_ref fields || is_oneOf fields || is_empty fields
  then negb (has_key "nullable" fields)
  else carries_nullable fields.

(** The rule for a fragment and every fragment inside it: the schema (or
    the schemas) under [items], the alternatives under [oneOf] and the
    values of [properties]. *)
Fixpoint disciplined (fragment : Json) : bool :=
  match fragment with
  | JObject fields =>
      nullable_rule fields
      && (fix children (fs : list (string * Json)) : bool :=
            match fs with
            | [] => true
            | (k, v) :: rest =>
                (if String.eqb k "items" then
                   match v with
                   | JArray xs => forallb disciplined xs
                   | _ => disciplined v
                   end
                 else if String.eqb k "oneOf" then
                   match v with
                   | JArray xs => forallb disciplined xs
                   | _ => false
                   end
                 else if String.eqb k "properties" then
                   match v with
                   | JObject ps =>
                       forallb (fun kv => match kv with
                                          | (_, x) => disciplined x
                                          end) ps
                   | _ => false
                   end
                 else true)
                && children rest
            end) fields
  | _ => false
  end.

(** The rule for a whole document: its root schemas and its components. *)
Definition application_disciplined (app : Json) : bool :=
  match app with
  | JObject fields =>
      match get "schemas" fields, get "components" fields with
      | Some (JArray fragments), Some (JObject cs) =>
          match get "schemas" cs with
          | Some (JObject components) =>
              forallb disciplined fragments
              && forallb (fun kv => disciplined kv.2) components
          | _ => false
          end
      | _, _ => false
      end
  | _ => false
  end.



(** Modelled from the spec: a property whose type is a primitive, and
    the field it lowers to. *)
Definition leaf (p : Property TypeIR) : bool :=
  match edge_type (prop_edge p) with
  | primitive _ _ _ => true
  | _ => false
  end.

Definition leaf_field (p : Property TypeIR) : string * Json :=
  (prop_key p,
   match edge_type (prop_edge p) with
   | primitive kind _ literals =>
       primitive_fragment kind literals (edge_nullable (prop_edge p))
   | _ => JObject []
   end).

(** Modelled from the spec: the step of [lower] on one property of an
    object under the container [c]. *)
Definition lower_property (purpose : Purpose) (prefix c : string)
    (p : Property TypeIR) : Compile (string * Json) :=
  match p with
  | mkProperty k _ (mkEdge nl ty) =>
      fun r => with_key k (lower purpose prefix (Some c) nl ty r)
  end.

(** Modelled from the spec: the fragment of a primitive alternative
    reached with nullability [nullable]. *)
Definition alternative_fragment (nullable : bool) (t : TypeIR) : Json :=
  match t with
  | primitive kind _ literals => primitive_fragment kind literals nullable
  | _ => JObject []
  end.

Definition is_primitive (t : TypeIR) : bool :=
  match t with primitive _ _ _ => true | _ => false end.

(* ===================================================================== *)
(** ** Induction on the Type IR *)
(* ===================================================================== *)

Section TypeIR_induction.

Variable P : TypeIR -> Prop.

Hypothesis P_primitive :
  forall kind format literals, P (primitive kind format literals).
Hypothesis P_array :
  forall n element, P element -> P (array (mkEdge n element)).
Hypothesis P_tuple :
  forall elements,
    Forall (fun e => P (edge_type e)) elements -> P (tuple elements).
Hypothesis P_object :
  forall name tags properties,
    Forall (fun p => P (edge_type (prop_edge p))) properties ->
    P (object name tags properties).
Hypothesis P_union :
  forall alternatives, Forall P alternatives -> P (union alternatives).
Hypothesis P_intersection :
  forall name tags members,
    Forall (fun m => Forall (fun p => P (edge_type (prop_edge p)))
                       (member_properties m)) members ->
    P (intersection name tags members).
Hypothesis P_reference : forall name, P (reference name).


End TypeIR_induction.

(* ===================================================================== *)
(** ** The two validator surfaces on one plan *)
(* ===================================================================== *)

(** The error a site of the accumulating surface reports. *)
Definition error_of {Value} (site : Site (IError Value)) : IError Value :=
  site.2 tt.

(** The accumulator a call of [validate.predicate] at [site] leaves. *)
Definition record {Value} (res : IValidation Value)
    (site : Site (IError Value)) : IValidation Value :=
  if fatal site
  then {| success := false;
          errors := errors res ++
            (if suppressed res (error_of site) then [] else [error_of site]) |}
  else res.

(** The site of the throwing surface that checks what [site] checks: the
    same flags, and a closure with the path, expected and value of the
    error of [site]. *)
Definition throwing {Value} (site : Site (IError Value))
    : Site (IPropsNoMethod Value) :=
  (site.1.1, site.1.2,
   fun _ => {| nm_path := Some (path (error_of site));
               nm_expected := expected (error_of site);
               nm_value := value (error_of site) |}).

(** The path of [error] is, character by character, a prefix of the path
    of some recorded error.  This is the relation the test of
    [validate.predicate] is about; the recorded error need not concern the
    same property ([$input.ab] covers [$input.a]). *)
Definition prefix_covered {Value} (errs : list (IError Value))
    (error : IError Value) : Prop :=
  exists r, r ∈ errs /\ is_prefix (path error) (path r).

(** Four errors up one branch, and two on sibling properties. *)
Definition branch_paths : list string :=
  ["$input.a.b.c"; "$input.a.b"; "$input.a"; "$input"].
Definition sibling_paths : list string := ["$input.a"; "$input.b"].
Definition site_at (p : string) : Site (IError unit) :=
  (false, true, fun _ => {| path := p; expected := "string"; value := tt |}).

(* ===================================================================== *)
(** ** The fragment of a node, by its type *)
(* ===================================================================== *)






(** The rule with the remark of the specification taken at its word:
    every alternative of a pure [oneOf] wrapper carries a boolean
    [nullable]. *)
Definition alternatives_nullable (fields : list (string * Json)) : bool :=
  match fields with
  | [(k, JArray xs)] =>
      if String.eqb k "oneOf"
      then forallb (fun x => match x with
                             | JObject fs => carries_nullable fs
                             | _ => false
                             end) xs
      else true
  | _ => true
  end.

Fixpoint as_claimed (fragment : Json) : bool :=
  match fragment with
  | JObject fields =>
      nullable_rule fields && alternatives_nullable fields
      && (fix children (fs : list (string * Json)) : bool :=
            match fs with
            | [] => true
            | (k, v) :: rest =>
                (if String.eqb k "items" then
                   match v with
                   | JArray xs => forallb as_claimed xs
                   | _ => as_claimed v
                   end
                 else if String.eqb k "oneOf" then
                   match v with
                   | JArray xs => forallb as_claimed xs
                   | _ => false
                   end
                 else if String.eqb k "properties" then
                   match v with
                   | JObject ps =>
                       forallb (fun kv => match kv with
                                          | (_, x) => as_claimed x
                                          end) ps
                   | _ => false
                   end
                 else true)
                && children rest
            end) fields
  | _ => false
  end.

Definition application_as_claimed (app : Json) : bool :=
  match app with
  | JObject fields =>
      match get "schemas" fields, get "components" fields with
      | Some (JArray fragments), Some (JObject cs) =>
          match get "schemas" cs with
          | Some (JObject components) =>
              forallb as_claimed fragments
              && forallb (fun kv => as_claimed kv.2) components
          | _ => false
          end
      | _, _ => false
      end
  | _ => false
  end.




(* ===================================================================== *)
(** * Properties of the runtime support *)
(* ===================================================================== *)

(** ** Strings *)

Lemma substring_0_prefix (p s : string) :
  String.substring 0 (String.length p) s = p <-> is_prefix p s.
Proof.
  revert s. induction p as [|c p IH]; intros s.
  - split; [intros _; by exists s|intros _]. by destruct s.
  - destruct s as [|d s]; simpl.
    + split; [done|]. by intros [t Ht].
    + split.
      * intros [= -> Hs]. apply IH in Hs as [t ->]. by exists t.
      * intros [t [= -> Ht]]. f_equal. apply IH. by exists t.
Qed.

Lemma length_append (s t : string) :
  String.length (s +:+ t) = String.length s + String.length t.
Proof. induction s; simpl; auto. Qed.

Lemma is_prefix_length (p s : string) :
  is_prefix p s -> String.length p <= String.length s.
Proof. intros [t ->]. rewrite length_append. lia. Qed.

Lemma js_substring_head (s : string) (n : nat) :
  n <= String.length s -> Js.substring s 0 n = String.substring 0 n s.
Proof.
  intros Hn. unfold Js.substring.
  rewrite (Nat.min_l n) by done. cbn [Nat.min Nat.max]. by rewrite Nat.sub_0_r.
Qed.

(** The test made by [validate.predicate] is the prefix relation. *)
Lemma covered_spec {Value} (last : string) (error : IError Value) :
  validate.covered last error = true <-> is_prefix (path error) last.
Proof.
  unfold validate.covered. rewrite andb_true_iff, Nat.leb_le, String.eqb_eq.
  split.
  - intros [Hlen Hsub]. rewrite js_substring_head in Hsub by done.
    by apply substring_0_prefix.
  - intros Hp. pose proof (is_prefix_length _ _ Hp) as Hlen. split; [done|].
    rewrite js_substring_head by done. by apply substring_0_prefix.
Qed.

Lemma strict_extension_not_prefix (p s : string) :
  strict_extension p s -> ~ is_prefix s p.
Proof.
  intros (t & Ht & ->) Hp. apply is_prefix_length in Hp.
  rewrite length_append in Hp. destruct t; [done|]. simpl in Hp. lia.
Qed.

Lemma append_cons (c : ascii) (s t : string) :
  String c s +:+ t = String c (s +:+ t).
Proof. reflexivity. Qed.

Lemma append_assoc (s t u : string) : (s +:+ t) +:+ u = s +:+ (t +:+ u).
Proof. induction s; rewrite ?append_cons; [done|congruence]. Qed.

Lemma append_empty_r (s : string) : s +:+ EmptyString = s.
Proof. induction s; rewrite ?append_cons; [done|congruence]. Qed.

Lemma prefix_append (s t : string) : String.prefix s (s +:+ t) = true.
Proof.
  induction s as [|c s IH]; [by destruct t|].
  rewrite append_cons. simpl. destruct (ascii_dec c c); [apply IH|done].
Qed.

Lemma includes_here (s t : string) : Js.includes (s +:+ t) s = true.
Proof.
  pose proof (prefix_append s t) as Hp.
  destruct (s +:+ t); cbn [Js.includes]; by rewrite Hp.
Qed.

Lemma includes_later (pre s sub : string) :
  Js.includes s sub = true -> Js.includes (pre +:+ s) sub = true.
Proof.
  intros Hs. induction pre as [|c pre IH]; [done|].
  rewrite append_cons. cbn [Js.includes]. rewrite IH. apply orb_true_r.
Qed.

(** An infix is included. *)
Lemma includes_infix (pre sub post : string) :
  Js.includes (pre +:+ sub +:+ post) sub = true.
Proof. apply includes_later, includes_here. Qed.

(** ** [halt] *)

Lemma halt_misuse {Value A} (name : string) :
  misuse_error name (halt name : result Value A).
Proof.
  unfold halt. eexists. split; [reflexivity|]. split.
  - change "Error on TSON." with ("Error on " +:+ "TSON.").
    rewrite append_assoc.
    change "(): no transform has been configured. Configure the "
      with ("()" +:+ ": no transform has been configured. Configure the ").
    rewrite (append_assoc "()").
    rewrite <- (append_assoc name "()"), <- (append_assoc "TSON.").
    apply includes_infix.
  - change "(): no transform has been configured. Configure the "
      with ("(): no transform has been configured. " +:+ "Configure the ").
    rewrite (append_assoc "(): no transform has been configured. ").
    rewrite <- (append_assoc name), <- (append_assoc "Error on TSON.").
    fold setup_instruction.
    rewrite <- (append_empty_r setup_instruction) at 1.
    apply includes_infix.
Qed.

(** C3: every entry point, called without the transformer, throws an
    [Error] at once, whatever it is given; the message names the entry
    point as [TSON.<name>()] and carries the instruction to configure
    [tsconfig.json] after the setup guide.  No entry point returns. *)
Theorem entry_points_halt {Value T App : Type} (input : Value) (literal : T) :
  misuse_error "assertType" (assertType input : result Value T)
  /\ misuse_error "is" (is_ input)
  /\ misuse_error "validate" (validate input)
  /\ misuse_error "stringify" (stringify input)
  /\ misuse_error "create" (create literal : result Value T)
  /\ misuse_error "application" (application : result Value App)
  /\ (forall v, (assertType input : result Value T) <> Return v)
  /\ (forall v, is_ input <> Return v)
  /\ (forall v, validate input <> Return v)
  /\ (forall v, stringify input <> Return v)
  /\ (forall v, (create literal : result Value T) <> Return v)
  /\ (forall v, (application : result Value App) <> Return v).
Proof.
  repeat split; try apply halt_misuse; intros v; discriminate.
Qed.

(** ** [assertType.predicate] *)

Lemma assert_predicate_fatal {Value} (m e : bool)
    (c : unit -> IPropsNoMethod Value) :
  fatal (m, e, c) = true ->
  assertType.predicate m e c = Throw (guard_error c).
Proof. destruct m, e; try discriminate. reflexivity. Qed.

Lemma assert_predicate_passes {Value} (m e : bool)
    (c : unit -> IPropsNoMethod Value) :
  fatal (m, e, c) = false ->
  assertType.predicate m e c = Return m.
Proof. destruct m, e; try discriminate; reflexivity. Qed.

(** The throwing surface stops at the first fatal site. *)
Lemma assert_all_first_fatal {Value} (sites : list (Site (IPropsNoMethod Value))) :
  assert_all sites =
    match List.find fatal sites with
    | Some site => Throw (guard_error site.2)
    | None => Return (map matched_of sites)
    end.
Proof.
  induction sites as [|[[m e] c] sites IH]; [done|].
  cbn [assert_all List.find].
  destruct (fatal (m, e, c)) eqn:Hf.
  - by rewrite (assert_predicate_fatal m e c Hf).
  - rewrite (assert_predicate_passes m e c Hf). cbn [bind].
    rewrite IH. by destruct (List.find fatal sites).
Qed.

(** C2: [assertType.predicate] throws exactly when [matched] is false and
    [exceptionable] is true, and what it throws is the [TypeGuardError]
    of method [TSON.assertType] with the path, expected and value of the
    closure; otherwise it returns [matched].  Over a sequence of sites the
    throwing surface therefore ends with the error of the first fatal
    site, and returns every [matched] when there is none. *)
Theorem assertType_predicate_throws_iff {Value} (matched exceptionable : bool)
    (closure : unit -> IPropsNoMethod Value) :
  ((exists e, assertType.predicate matched exceptionable closure = Throw e)
     <-> matched = false /\ exceptionable = true)
  /\ assertType.predicate matched exceptionable closure =
       (if negb matched && exceptionable
        then Throw (TypeGuardError
               {| method := "TSON.assertType";
                  props_path := nm_path (closure tt);
                  props_expected := nm_expected (closure tt);
                  props_value := nm_value (closure tt) |})
        else Return matched)
  /\ (forall sites : list (Site (IPropsNoMethod Value)),
        assert_all sites =
          match List.find fatal sites with
          | Some site => Throw (guard_error site.2)
          | None => Return (map matched_of sites)
          end).
Proof.
  split; [|split].
  - destruct matched, exceptionable; cbn; split;
      try (intros [e He]; discriminate); try (intros [? ?]; discriminate);
      eauto.
  - by destruct matched, exceptionable.
  - apply assert_all_first_fatal.
Qed.

(** ** [validate.predicate] *)

Lemma last_path_last {Value} (res : IValidation Value) :
  validate.last_path res =
    match last (errors res) with
    | Some e => Return (path e)
    | None => Throw (TypeError "Cannot read properties of undefined (reading 'path')")
    end.
Proof.
  unfold validate.last_path. rewrite last_lookup.
  by replace (length (errors res) - 1) with (pred (length (errors res))) by lia.
Qed.

(** What a call does, as one equation: the call returns [matched]; a
    fatal site clears [success] and pushes its error unless the error is
    suppressed; any other site leaves the accumulator alone. *)
Lemma validate_predicate_eq {Value} (res : IValidation Value)
    (matched exceptionable : bool) (closure : unit -> IError Value) :
  validate.predicate res matched exceptionable closure =
    Return (matched,
      if negb matched && exceptionable
      then {| success := false;
              errors := errors res ++
                (if suppressed res (closure tt) then [] else [closure tt]) |}
      else res).
Proof.
  unfold validate.predicate.
  destruct matched, exceptionable; cbn [Bool.eqb andb negb]; try done.
  unfold validate.trace, suppressed. cbn [errors success].
  rewrite last_path_last. cbn [errors].
  replace (if success res then false else success res) with false
    by (by destruct (success res)).
  destruct (errors res) as [|e l] eqn:He using rev_ind; [done|].
  rewrite length_app, last_snoc. cbn [length].
  replace (length l + 1 =? 0) with false by (symmetry; apply Nat.eqb_neq; lia).
  cbn [negb bind].
  destruct (validate.covered (path e) (closure tt)); cbn [bind]; [|done].
  by rewrite app_nil_r.
Qed.

(** C1, as the specification states it, fails: after the error at
    [$input.a.b] has been recorded, the error at [$input.a.b.c], whose
    path strictly extends it, is appended. *)
Lemma child_error_is_recorded :
  validate.predicate fresh false true (fun _ => parent_error)
    = Return (false, res_parent_recorded)
  /\ validate.predicate res_parent_recorded false true (fun _ => child_error)
    = Return (false, {| success := false;
                        errors := [parent_error; child_error] |})
  /\ ~ child_dropped res_parent_recorded child_error.
Proof.
  split; [reflexivity|]. split; [reflexivity|].
  intros Hdrop.
  destruct (Hdrop parent_error eq_refl) as (res' & Hcall & Herrors).
  - exists ".c". by split.
  - vm_compute in Hcall. injection Hcall as <-. discriminate Herrors.
Qed.

(** C1, amended: the error of a fatal site is left out exactly when its
    path is a prefix of (or equal to) the path of the last recorded error,
    the broader error following the more specific one; an error whose path
    is not such a prefix, in particular one that strictly extends the last
    recorded path, is appended after it. *)
Theorem validate_predicate_suppression {Value} (res : IValidation Value)
    (closure : unit -> IError Value) (last_error : IError Value) :
  last (errors res) = Some last_error ->
  (is_prefix (path (closure tt)) (path last_error) ->
     validate.predicate res false true closure
       = Return (false, {| success := false; errors := errors res |}))
  /\ (~ is_prefix (path (closure tt)) (path last_error) ->
     validate.predicate res false true closure
       = Return (false, {| success := false;
                           errors := errors res ++ [closure tt] |}))
  /\ (strict_extension (path last_error) (path (closure tt)) ->
     validate.predicate res false true closure
       = Return (false, {| success := false;
                           errors := errors res ++ [closure tt] |})).
Proof.
  intros Hlast.
  assert (Hno : ~ is_prefix (path (closure tt)) (path last_error) ->
     validate.predicate res false true closure
       = Return (false, {| success := false;
                           errors := errors res ++ [closure tt] |})).
  { intros Hp. rewrite validate_predicate_eq. cbn [negb andb].
    unfold suppressed. rewrite Hlast.
    destruct (validate.covered _ _) eqn:Hc; [|done].
    by apply covered_spec in Hc. }
  split; [|split; [done|]].
  - intros Hp. rewrite validate_predicate_eq. cbn [negb andb].
    unfold suppressed. rewrite Hlast.
    apply covered_spec in Hp. rewrite Hp. by rewrite app_nil_r.
  - intros Hext. by apply Hno, strict_extension_not_prefix.
Qed.

(** The rule at the two errors one level apart: the parent after the
    child is left out, the child after the parent is appended. *)
Lemma validate_predicate_suppression_witness :
  validate.predicate res_child_recorded false true (fun _ => parent_error)
    = Return (false, res_child_recorded)
  /\ validate.predicate res_parent_recorded false true (fun _ => child_error)
    = Return (false, {| success := false;
                        errors := [parent_error; child_error] |}).
Proof.
  split.
  - apply (validate_predicate_suppression res_child_recorded
             (fun _ => parent_error) child_error eq_refl).
    exists ".c". reflexivity.
  - apply (validate_predicate_suppression res_parent_recorded
             (fun _ => child_error) parent_error eq_refl).
    exists ".c". split; [discriminate|reflexivity].
Defined.

Lemma validate_all_quiet {Value} (res : IValidation Value)
    (sites : list (Site (IError Value))) :
  Forall (fun site => fatal site = false) sites ->
  validate_all res sites = Return (map matched_of sites, res).
Proof.
  induction 1 as [|[[m e] c] sites Hf _ IH]; [done|].
  cbn [validate_all]. rewrite validate_predicate_eq.
  unfold fatal in Hf. cbn in Hf. rewrite Hf. cbn [bind fst snd].
  rewrite IH. reflexivity.
Qed.

(** C9: a call with [matched] true or [exceptionable] false returns
    [matched] and leaves the accumulator as it was, [success] and
    [errors] alike; the accumulator changes only at a site with [matched]
    false and [exceptionable] true; and a run of sites none of which is
    fatal, such as the trial of a union alternative, leaves no trace. *)
Theorem validate_predicate_frame {Value} (res : IValidation Value)
    (matched exceptionable : bool) (closure : unit -> IError Value) :
  (matched = true \/ exceptionable = false ->
     validate.predicate res matched exceptionable closure
       = Return (matched, res))
  /\ (forall r, validate.predicate res matched exceptionable closure = Return r ->
        r.2 <> res -> matched = false /\ exceptionable = true)
  /\ (forall sites : list (Site (IError Value)),
        Forall (fun site => matched_of site = true \/ site.1.2 = false) sites ->
        validate_all res sites = Return (map matched_of sites, res)).
Proof.
  split; [|split].
  - intros H. rewrite validate_predicate_eq.
    destruct H as [-> | ->]; [done|]. by destruct matched.
  - intros r. rewrite validate_predicate_eq.
    destruct matched, exceptionable; cbn; intros [= <-]; done.
  - intros sites Hs. apply validate_all_quiet.
    eapply Forall_impl; [exact Hs|].
    intros [[m e] c]. unfold fatal, matched_of. cbn.
    intros [-> | ->]; [done|]. by destruct m.
Qed.

Lemma validate_predicate_step {Value} (res : IValidation Value)
    (matched exceptionable : bool) (closure : unit -> IError Value) :
  exists res',
    validate.predicate res matched exceptionable closure = Return (matched, res')
    /\ (success res' = true -> success res = true)
    /\ (errors res' = errors res \/ errors res' = errors res ++ [closure tt]).
Proof.
  rewrite validate_predicate_eq. eexists. split; [reflexivity|].
  destruct (negb matched && exceptionable); cbn [success errors]; [|auto].
  split; [done|].
  destruct (suppressed res (closure tt)); [left; apply app_nil_r|by right].
Qed.

Lemma validate_all_run {Value} (sites : list (Site (IError Value))) :
  forall res : IValidation Value,
  exists res',
    validate_all res sites = Return (map matched_of sites, res')
    /\ (success res' = true -> success res = true)
    /\ exists added, errors res' = errors res ++ added.
Proof.
  induction sites as [|[[m e] c] sites IH]; intros res.
  - exists res. split; [done|]. split; [done|]. exists []. by rewrite app_nil_r.
  - destruct (validate_predicate_step res m e c) as (res1 & Hcall & Hs1 & He1).
    destruct (IH res1) as (res2 & Hrun & Hs2 & added & He2).
    exists res2. cbn [validate_all]. rewrite Hcall. cbn [bind fst snd].
    rewrite Hrun. cbn [bind fst snd]. split; [done|]. split; [auto|].
    destruct He1 as [He1 | He1]; rewrite He2, He1.
    + by exists added.
    + exists (c tt :: added). by rewrite <- app_assoc.
Qed.

(** C10: [validate.predicate] always returns, and returns [matched];
    a call never turns [success] from false to true and never removes or
    alters a recorded error: it appends nothing or the error of its
    closure.  The same holds along every sequence of calls on one
    accumulator.  Whether the error is appended depends on the accumulator
    through its last recorded error only. *)
Theorem validate_predicate_append_only {Value} :
  (forall (res : IValidation Value) matched exceptionable closure,
     exists res',
       validate.predicate res matched exceptionable closure
         = Return (matched, res')
       /\ (success res' = true -> success res = true)
       /\ (errors res' = errors res
           \/ errors res' = errors res ++ [closure tt]))
  /\ (forall (res : IValidation Value) sites,
     exists res',
       validate_all res sites = Return (map matched_of sites, res')
       /\ (success res' = true -> success res = true)
       /\ exists added, errors res' = errors res ++ added)
  /\ (forall (res1 res2 : IValidation Value) matched exceptionable closure,
     last (errors res1) = last (errors res2) ->
     exists res1' res2' added,
       validate.predicate res1 matched exceptionable closure
         = Return (matched, res1')
       /\ validate.predicate res2 matched exceptionable closure
         = Return (matched, res2')
       /\ errors res1' = errors res1 ++ added
       /\ errors res2' = errors res2 ++ added).
Proof.
  split; [|split].
  - apply validate_predicate_step.
  - intros res sites. apply validate_all_run.
  - intros res1 res2 m e c Hlast. rewrite !validate_predicate_eq.
    destruct (negb m && e).
    + do 2 eexists. exists (if suppressed res1 (c tt) then [] else [c tt]).
      split; [reflexivity|]. split; [reflexivity|]. cbn [errors].
      split; [done|]. unfold suppressed. by rewrite Hlast.
    + exists res1, res2, []. by rewrite !app_nil_r.
Qed.

(** ** Further properties of [module.ts] *)

(** [stringify.throws] never returns: it throws the [TypeGuardError]
    of method [TSON.stringify] that carries the [expected] and the [value]
    it was given, and no path. *)
Theorem stringify_throws_always {Value} (props : IPropsExpectedValue Value) :
  stringify.throws props
    = Throw (TypeGuardError
        {| method := "TSON.stringify";
           props_path := None;
           props_expected := ev_expected props;
           props_value := ev_value props |})
  /\ forall u, stringify.throws props <> Return u.
Proof. split; [reflexivity|]. intros u. discriminate. Qed.

Lemma suppressed_nonempty {Value} (res : IValidation Value) (e : IError Value) :
  suppressed res e = true -> errors res <> [].
Proof. unfold suppressed. by destruct (errors res). Qed.

(** X1: on an accumulator that starts with [success] true and no error,
    after any sequence of calls of [validate.predicate], [success] is true
    exactly when no error is recorded, and exactly when no site was
    fatal. *)
Theorem validate_success_iff_no_error {Value} (sites : list (Site (IError Value))) :
  exists res',
    validate_all {| success := true; errors := [] |} sites
      = Return (map matched_of sites, res')
    /\ (success res' = true <-> errors res' = [])
    /\ (success res' = true <-> Forall (fun site => fatal site = false) sites).
Proof.
  assert (Hgen : forall res : IValidation Value,
    (success res = true <-> errors res = []) ->
    exists res',
      validate_all res sites = Return (map matched_of sites, res')
      /\ (success res' = true <-> errors res' = [])
      /\ (success res' = true <->
          success res = true /\ Forall (fun site => fatal site = false) sites)).
  { induction sites as [|[[m e] c] sites IH]; intros res Hres.
    - exists res. split; [done|]. split; [done|]. split; [by split|by intros []].
    - cbn [validate_all]. rewrite validate_predicate_eq. cbn [bind fst snd].
      destruct (negb m && e) eqn:Hf.
      + destruct (IH {| success := false;
                        errors := errors res ++
                          (if suppressed res (c tt) then [] else [c tt]) |})
          as (res' & Hrun & Hiff & Hs).
        { cbn [success errors]. split; [done|].
          destruct (suppressed res (c tt)) eqn:Hsup.
          - rewrite app_nil_r. intros He. by apply suppressed_nonempty in Hsup.
          - intros He. by apply app_nil in He as [_ ?]. }
        exists res'. rewrite Hrun. cbn [bind fst snd map]. split; [done|].
        split; [done|]. rewrite Hs. cbn [success]. split; [by intros []|].
        intros [_ Hall]. apply Forall_cons in Hall as [Hm _].
        unfold fatal in Hm. cbn in Hm. congruence.
      + destruct (IH res Hres) as (res' & Hrun & Hiff & Hs).
        exists res'. rewrite Hrun. cbn [bind fst snd map]. split; [done|].
        split; [done|]. rewrite Hs, Forall_cons. unfold fatal at 2. cbn [fst snd].
        rewrite Hf. tauto. }
  destruct (Hgen {| success := true; errors := [] |}) as (res' & Hrun & Hiff & Hs);
    [done|].
  exists res'. split; [done|]. split; [done|]. rewrite Hs. cbn. tauto.
Qed.

Lemma no_redundant_successor_push {Value} (errs : list (IError Value))
    (e : IError Value) :
  no_redundant_successor errs ->
  (forall l, last errs = Some l -> ~ is_prefix (path e) (path l)) ->
  no_redundant_successor (errs ++ [e]).
Proof.
  intros Hok Hlast before a b after Heq.
  destruct after as [|x after _] using rev_ind.
  - change (before ++ [a; b]) with (before ++ [a] ++ [b]) in Heq.
    rewrite app_assoc in Heq. apply app_inj_tail in Heq as [-> ->].
    apply Hlast. by rewrite last_snoc.
  - change (before ++ a :: b :: after ++ [x])
      with (before ++ (a :: b :: after) ++ [x]) in Heq.
    rewrite app_assoc in Heq. apply app_inj_tail in Heq as [-> _].
    by eapply Hok.
Qed.

(** X2: along every sequence of calls of [validate.predicate] on an
    accumulator that starts without errors, no recorded error is directly
    followed by an error whose path is a prefix of (or equal to) its own
    path. *)
Theorem validate_no_redundant_successor {Value}
    (sites : list (Site (IError Value))) (flag : bool) :
  exists res',
    validate_all {| success := flag; errors := [] |} sites
      = Return (map matched_of sites, res')
    /\ no_redundant_successor (errors res').
Proof.
  assert (Hgen : forall res : IValidation Value,
    no_redundant_successor (errors res) ->
    exists res',
      validate_all res sites = Return (map matched_of sites, res')
      /\ no_redundant_successor (errors res')).
  { induction sites as [|[[m e] c] sites IH]; intros res Hres.
    - by exists res.
    - cbn [validate_all]. rewrite validate_predicate_eq. cbn [bind fst snd].
      destruct (negb m && e).
      + destruct (IH {| success := false;
                        errors := errors res ++
                          (if suppressed res (c tt) then [] else [c tt]) |})
          as (res' & Hrun & Hok).
        { cbn [errors]. destruct (suppressed res (c tt)) eqn:Hsup.
          - by rewrite app_nil_r.
          - apply no_redundant_successor_push; [done|].
            intros l Hl Hp. unfold suppressed in Hsup. rewrite Hl in Hsup.
            apply covered_spec in Hp. congruence. }
        exists res'. by rewrite Hrun.
      + destruct (IH res Hres) as (res' & Hrun & Hok).
        exists res'. by rewrite Hrun. }
  apply Hgen. intros before a b after Heq. by destruct before.
Qed.


(* ===================================================================== *)
(** * Properties of the schema application *)
(* ===================================================================== *)

(** ** Fields of an object *)

Lemma get_set_eq {A} (k : string) (v : A) (fields : list (string * A)) :
  get k (set k v fields) = Some v.
Proof.
  induction fields as [|[k' v'] fields IH]; cbn [set get].
  - by rewrite String.eqb_refl.
  - destruct (String.eqb k' k) eqn:E; cbn [get].
    + by rewrite String.eqb_refl.
    + by rewrite E.
Qed.

Lemma get_set_ne {A} (k k' : string) (v : A) (fields : list (string * A)) :
  k <> k' -> get k' (set k v fields) = get k' fields.
Proof.
  intros Hne. induction fields as [|[k0 v0] fields IH]; cbn [set get].
  - by apply String.eqb_neq in Hne as ->.
  - destruct (String.eqb k0 k) eqn:E; cbn [get].
    + apply String.eqb_eq in E as ->.
      by apply String.eqb_neq in Hne as ->.
    + by rewrite IH.
Qed.


Lemma forallb_Forall {A} (f : A -> bool) (l : list A) :
  Forall (fun a => f a = true) l -> forallb f l = true.
Proof.
  induction 1 as [|a l Ha _ IH]; [done|]. cbn [forallb]. by rewrite Ha, IH.
Qed.

(** ** [traverse] *)

Lemma traverse_app {A B} (f : A -> Compile B) (l1 l2 : list A) (reg : Registry) :
  traverse f (l1 ++ l2) reg =
    match traverse f l1 reg with
    | inl e => inl e
    | inr (bs1, reg1) =>
        match traverse f l2 reg1 with
        | inl e => inl e
        | inr (bs2, reg2) => inr (bs1 ++ bs2, reg2)
        end
    end.
Proof.
  revert reg. induction l1 as [|a l1 IH]; intros reg; cbn [traverse app].
  - by destruct (traverse f l2 reg) as [e|[bs2 reg2]].
  - destruct (f a reg) as [e|[b reg1]]; [done|]. rewrite IH.
    destruct (traverse f l1 reg1) as [e|[bs1 reg2]]; [done|].
    by destruct (traverse f l2 reg2) as [e|[bs2 reg3]].
Qed.


(** ** The nullability rule *)









(** ** The registry along a compile *)







(** The documents of the five fixtures obey the rule. *)
Lemma fixtures_disciplined :
  Forall (fun app => application_disciplined app = true)
    [test_application_object_alias; test_application_object_primitive;
     test_application_object_intersection; test_application_object_closure;
     test_application_array_union].
Proof. repeat constructor. Qed.


(** ** Objects *)

(** Every result of a traversal is the result of its step on the element
    at the same place, in some registry. *)
Lemma traverse_Forall2 {A B} (f : A -> Compile B) (l : list A) :
  forall reg bs reg',
    traverse f l reg = inr (bs, reg') ->
    Forall2 (fun a b => exists r r', f a r = inr (b, r')) l bs.
Proof.
  induction l as [|a l IH]; intros reg bs reg' Ht; cbn [traverse] in Ht.
  - injection Ht as <- <-. constructor.
  - destruct (f a reg) as [e|[b reg1]] eqn:Hf; [done|].
    destruct (traverse f l reg1) as [e|[bs1 reg2]] eqn:Hl; [done|].
    injection Ht as <- <-. constructor; eauto.
Qed.

Lemma lower_property_key purpose prefix c p r kv r' :
  lower_property purpose prefix c p r = inr (kv, r') -> kv.1 = prop_key p.
Proof.
  destruct p as [k req [nl ty]]. cbn [lower_property prop_key].
  destruct (lower _ _ _ _ _ _) as [e|[j r1]]; [done|].
  cbn. by intros [= <- <-].
Qed.

Lemma lower_properties_keys purpose prefix c properties reg fields reg' :
  traverse (lower_property purpose prefix c) properties reg = inr (fields, reg') ->
  map fst fields = map prop_key properties.
Proof.
  intros Ht. apply traverse_Forall2 in Ht.
  induction Ht as [|p kv ps kvs (r & r' & Hp) _ IH]; [done|].
  cbn [map]. f_equal; [|done]. by eapply lower_property_key.
Qed.

(** The equation of [lower] on an object. *)
Lemma lower_object_eq purpose prefix container nullable name tags properties reg :
  lower purpose prefix container nullable (object name tags properties) reg =
    match resolve_name name container reg with
    | Known n => inr (ref_fragment prefix n, reg)
    | Clash n => inl (name_collision n)
    | Fresh n c reg1 =>
        match traverse (lower_property purpose prefix c) properties
                (reserve n reg1) with
        | inl e => inl e
        | inr (fields, reg2) =>
            inr (ref_fragment prefix n,
                 fill n (object_fragment fields (required_keys properties)
                           tags) reg2)
        end
    end.
Proof. reflexivity. Qed.

(** A declared object type met for the first time: the fragment is the
    [$ref] to its name, and the registry holds under that name the object
    fragment with the declared properties in their order and, as
    [required], those that are not optional. *)
Lemma lower_object_fresh purpose prefix container nullable n tags properties
    reg j reg' :
  registered n reg = false ->
  lower purpose prefix container nullable (object (Some n) tags properties) reg
    = inr (j, reg') ->
  j = ref_fragment prefix n
  /\ exists fields,
       get n (schemas reg')
         = Some (object_fragment fields (required_keys properties) tags)
       /\ map fst fields = map prop_key properties
       /\ Forall2 (fun p kv => exists r r',
                     lower_property purpose prefix n p r = inr (kv, r'))
            properties fields.
Proof.
  intros Hfresh. rewrite lower_object_eq. cbn [resolve_name]. rewrite Hfresh.
  destruct (traverse _ properties (reserve n reg)) as [e|[fields reg2]] eqn:Ht;
    [done|].
  intros [= <- <-]. split; [done|]. exists fields.
  split; [apply get_set_eq|]. split; [by eapply lower_properties_keys|].
  by eapply traverse_Forall2.
Qed.

Lemma required_keys_all (properties : list (Property TypeIR)) :
  Forall (fun p => prop_required p = true) properties ->
  required_keys properties = map prop_key properties.
Proof.
  unfold required_keys. induction 1 as [|p ps Hp _ IH]; [done|].
  rewrite filter_cons_True by done. cbn [map]. by f_equal.
Qed.

Lemma required_keys_elem (properties : list (Property TypeIR)) p :
  p ∈ properties -> prop_required p = true ->
  prop_key p ∈ required_keys properties.
Proof.
  intros Hin Hreq. unfold required_keys.
  apply list_elem_of_fmap. exists p. split; [done|].
  by apply list_elem_of_filter.
Qed.

(** Properties of primitive types are lowered without touching the
    registry. *)
Lemma traverse_leaves purpose prefix c (properties : list (Property TypeIR)) reg :
  Forall (fun p => leaf p = true) properties ->
  traverse (lower_property purpose prefix c) properties reg
    = inr (map leaf_field properties, reg).
Proof.
  induction 1 as [|[k r [nl ty]] ps Hp _ IH]; [done|].
  destruct ty; try discriminate.
  cbn [traverse lower_property lower with_key]. rewrite IH. reflexivity.
Qed.

(** C7: a fully-open type lowers to the empty fragment and never aborts
    the compile, whatever the edge, the container and the registry; a
    declared object with a property of such a type that is not optional
    has, in the entry its compile leaves in the registry, the empty
    fragment under that property and the property in [required].  The
    closure fixture is the document of such an object. *)
Theorem unknown_lowers_to_empty :
  (forall purpose prefix container nullable format literals reg,
     lower purpose prefix container nullable
       (primitive a_unknown format literals) reg = inr (JObject [], reg))
  /\ (forall purpose prefix container nullable n tags properties reg j reg'
        k nl format literals,
        registered n reg = false ->
        lower purpose prefix container nullable (object (Some n) tags properties)
          reg = inr (j, reg') ->
        mkProperty k true (mkEdge nl (primitive a_unknown format literals))
          ∈ properties ->
        exists fields required,
          get n (schemas reg') = Some (object_fragment fields required tags)
          /\ (k, JObject []) ∈ fields
          /\ k ∈ required)
  /\ buildSchemaApplication [ObjectClosure] swagger (default_prefix swagger)
       = inr test_application_object_closure.
Proof.
  split; [done|]. split; [|by vm_compute].
  intros purpose prefix container nullable n tags properties reg j reg'
    k nl format literals Hfresh Hl Hin.
  destruct (lower_object_fresh _ _ _ _ _ _ _ _ _ _ Hfresh Hl)
    as (_ & fields & Hget & _ & Hall).
  exists fields, (required_keys properties). split; [done|]. split.
  - destruct (proj1 (list_elem_of_lookup _ _) Hin) as [i Hi].
    destruct (Forall2_lookup_l _ _ _ _ _ Hall Hi) as (kv & Hkv & r & r' & Hp).
    cbn in Hp. injection Hp as <- <-.
    by eapply list_elem_of_lookup_2.
  - by apply (required_keys_elem _ _ Hin).
Qed.

(** The entry of [ObjectClosure.IRecord], whose [open] is fully open. *)
Lemma unknown_lowers_to_empty_witness :
  exists fields required,
    get "ObjectClosure.IRecord"
      (schemas (fill "ObjectClosure.IRecord"
         (object_fragment
            [("id", primitive_fragment a_string None false); ("open", JObject [])]
            ["id"; "open"] [])
         (reserve "ObjectClosure.IRecord" empty_registry)))
      = Some (object_fragment fields required [])
    /\ ("open", JObject []) ∈ fields
    /\ "open" ∈ required.
Proof.
  apply (proj1 (proj2 unknown_lowers_to_empty) swagger (default_prefix swagger)
           None false "ObjectClosure.IRecord" []
           [property "id" false (atomic a_string);
            property "open" false (atomic a_unknown)]
           empty_registry
           (ref_fragment (default_prefix swagger) "ObjectClosure.IRecord") _
           "open" false None None).
  - reflexivity.
  - reflexivity.
  - apply list_elem_of_further, list_elem_of_here.
Defined.

(** ** Intersections *)

Lemma first_duplicate_None (keys : list string) :
  first_duplicate keys = None <-> NoDup keys.
Proof.
  induction keys as [|k keys IH]; cbn [first_duplicate].
  - split; [constructor|done].
  - rewrite NoDup_cons. case_bool_decide as Hk.
    + split; [done|]. by intros [? _].
    + rewrite IH. tauto.
Qed.

Lemma first_duplicate_Some (keys : list string) k :
  first_duplicate keys = Some k -> ~ NoDup keys.
Proof.
  intros Hk Hnd. apply first_duplicate_None in Hnd. congruence.
Qed.

(** The step of [lower] on one member of an intersection. *)
Lemma lower_intersection_eq purpose prefix container nullable name tags members reg :
  lower purpose prefix container nullable (intersection name tags members) reg =
    if negb (forallb is_object members) then inl non_object_member
    else
      match first_duplicate
              (map prop_key (concat (map member_properties members))) with
      | Some k => inl (property_collision k)
      | None =>
          match resolve_name name container reg with
          | Known n => inr (ref_fragment prefix n, reg)
          | Clash n => inl (name_collision n)
          | Fresh n c reg1 =>
              match traverse
                      (fun m => match m with
                                | object _ _ properties =>
                                    traverse (lower_property purpose prefix c)
                                      properties
                                | _ => fun _ => inl non_object_member
                                end)
                      members (reserve n reg1) with
              | inl e => inl e
              | inr (fields, reg2) =>
                  inr (ref_fragment prefix n,
                       fill n (object_fragment (concat fields)
                                 (required_keys
                                    (concat (map member_properties members)))
                                 tags) reg2)
              end
          end
      end.
Proof. reflexivity. Qed.

(** Lowering the properties member by member is lowering them all in
    one go. *)
Lemma traverse_members purpose prefix c (members : list TypeIR) :
  Forall (fun m => is_object m = true) members ->
  forall reg,
    traverse (lower_property purpose prefix c)
      (concat (map member_properties members)) reg =
    match traverse
            (fun m => match m with
                      | object _ _ properties =>
                          traverse (lower_property purpose prefix c) properties
                      | _ => fun _ => inl non_object_member
                      end)
            members reg with
    | inl e => inl e
    | inr (fields, reg') => inr (concat fields, reg')
    end.
Proof.
  induction 1 as [|m members Hm _ IH]; intros reg; [done|].
  destruct m as [| | |name tags properties| | |]; try discriminate.
  cbn [map concat member_properties]. rewrite traverse_app. cbn [traverse].
  destruct (traverse _ properties reg) as [e|[fields1 reg1]]; [done|].
  rewrite IH.
  by destruct (traverse _ members reg1) as [e|[fields2 reg2]].
Qed.

(** An intersection of object types whose properties have pairwise
    different names lowers as the flat object type of all properties. *)
Lemma intersection_as_object purpose prefix container nullable name tags
    (members : list TypeIR) reg :
  Forall (fun m => is_object m = true) members ->
  NoDup (map prop_key (concat (map member_properties members))) ->
  lower purpose prefix container nullable (intersection name tags members) reg
    = lower purpose prefix container nullable
        (object name tags (concat (map member_properties members))) reg.
Proof.
  intros Hobj Hnd. rewrite lower_intersection_eq, lower_object_eq.
  rewrite (forallb_Forall _ _ Hobj). cbn [negb].
  rewrite (proj2 (first_duplicate_None _) Hnd).
  destruct (resolve_name name container reg) as [n|n|n c reg1]; try done.
  rewrite (traverse_members _ _ _ _ Hobj).
  by destruct (traverse _ members (reserve n reg1)) as [e|[fields reg2]].
Qed.

Lemma registered_empty (n : string) : registered n empty_registry = false.
Proof. reflexivity. Qed.

(** The document of one declared object type whose properties are all of
    primitive types. *)
Lemma flat_object_application purpose prefix n tags
    (properties : list (Property TypeIR)) :
  Forall (fun p => leaf p = true) properties ->
  buildSchemaApplication [object (Some n) tags properties] purpose prefix
    = inr (JObject
        [("schemas", JArray [ref_fragment prefix n]);
         ("components", JObject [("schemas", JObject
            [(n, object_fragment (map leaf_field properties)
                   (required_keys properties) tags)])]);
         ("purpose", JString (purpose_name purpose));
         ("prefix", JString prefix)]).
Proof.
  intros Hleaf. unfold buildSchemaApplication. cbn [traverse].
  rewrite lower_object_eq. cbn [resolve_name]. rewrite registered_empty.
  rewrite (traverse_leaves _ _ _ _ _ Hleaf).
  unfold fill, reserve, empty_registry. cbn [schemas set].
  by rewrite String.eqb_refl.
Qed.

(** C6: an intersection of object types whose properties have pairwise
    different names lowers exactly as the one flat object type that
    carries its name and all the properties of the members in order: the
    same fragment, the same registry.  So the intersection under a
    declared name met for the first time yields the [$ref] to that name
    and one object fragment under it with the properties of all members,
    and with all of them in [required] when none is optional.  When the
    properties are of primitive types, the document of the intersection
    has that one component and the [$ref] to it as root schema: no
    [oneOf], no [allOf], nothing of a member as such. *)
Theorem intersection_lowers_flat purpose prefix container nullable name tags
    (members : list TypeIR) reg :
  Forall (fun m => is_object m = true) members ->
  NoDup (map prop_key (concat (map member_properties members))) ->
  lower purpose prefix container nullable (intersection name tags members) reg
    = lower purpose prefix container nullable
        (object name tags (concat (map member_properties members))) reg
  /\ (forall n j reg',
        name = Some n -> registered n reg = false ->
        lower purpose prefix container nullable
          (intersection name tags members) reg = inr (j, reg') ->
        j = ref_fragment prefix n
        /\ exists fields,
             get n (schemas reg')
               = Some (object_fragment fields
                         (required_keys (concat (map member_properties members)))
                         tags)
             /\ map fst fields
                  = map prop_key (concat (map member_properties members))
             /\ (Forall (fun p => prop_required p = true)
                   (concat (map member_properties members)) ->
                 required_keys (concat (map member_properties members))
                   = map fst fields))
  /\ (forall n,
        name = Some n ->
        Forall (fun p => leaf p = true)
          (concat (map member_properties members)) ->
        buildSchemaApplication [intersection name tags members] purpose prefix
          = inr (JObject
              [("schemas", JArray [ref_fragment prefix n]);
               ("components", JObject [("schemas", JObject
                  [(n, object_fragment
                         (map leaf_field (concat (map member_properties members)))
                         (required_keys (concat (map member_properties members)))
                         tags)])]);
               ("purpose", JString (purpose_name purpose));
               ("prefix", JString prefix)])).
Proof.
  intros Hobj Hnd. split; [by apply intersection_as_object|]. split.
  - intros n j reg' -> Hfresh Hl.
    rewrite intersection_as_object in Hl by done.
    destruct (lower_object_fresh _ _ _ _ _ _ _ _ _ _ Hfresh Hl)
      as (-> & fields & Hget & Hkeys & _).
    split; [done|]. exists fields. split; [done|]. split; [done|].
    intros Hreq. rewrite Hkeys. by apply required_keys_all.
  - intros n -> Hleaf.
    rewrite <- (flat_object_application purpose prefix n tags _ Hleaf).
    unfold buildSchemaApplication. cbn [traverse].
    by rewrite intersection_as_object.
Qed.

(** Two members with a property of the same name abort the compile. *)
Lemma intersection_collision purpose prefix container nullable name tags
    (members : list TypeIR) reg :
  Forall (fun m => is_object m = true) members ->
  ~ NoDup (map prop_key (concat (map member_properties members))) ->
  exists k,
    lower purpose prefix container nullable (intersection name tags members) reg
      = inl (property_collision k).
Proof.
  intros Hobj Hdup. rewrite lower_intersection_eq.
  rewrite (forallb_Forall _ _ Hobj). cbn [negb].
  destruct (first_duplicate _) as [k|] eqn:Hk; [by exists k|].
  by apply first_duplicate_None in Hk.
Qed.

(** The intersection of the fixture and the flat object of its three
    properties. *)
Lemma intersection_lowers_flat_witness :
  buildSchemaApplication [ObjectIntersection] swagger (default_prefix swagger)
    = inr test_application_object_intersection
  /\ lower swagger (default_prefix swagger) None false ObjectIntersection
       empty_registry
     = lower swagger (default_prefix swagger) None false
         (object (Some "ObjectIntersection") []
            [property "email" false (atomic a_string);
             property "name" false (atomic a_string);
             property "vulnerable" false (atomic a_boolean)])
         empty_registry.
Proof.
  split; [by vm_compute|].
  apply (intersection_lowers_flat swagger (default_prefix swagger) None false
           (Some "ObjectIntersection") []
           [object (Some "ObjectIntersection.IEmail") []
              [property "email" false (atomic a_string)];
            object (Some "ObjectIntersection.IName") []
              [property "name" false (atomic a_string)];
            object (Some "ObjectIntersection.IVulnerable") []
              [property "vulnerable" false (atomic a_boolean)]]
           empty_registry).
  - repeat constructor.
  - apply first_duplicate_None. reflexivity.
Defined.

(** ** Anonymous objects *)

(** C5: an object type without a name, requested as a root, with one
    property that is itself an object without a name and otherwise
    properties of primitive types: the registry of the document has the
    two entries [__type] and [__type.o1], in this order; the root schema is
    the [$ref] to [__type] and, in the entry [__type], the nested property
    is the [$ref] to [__type.o1], both under the prefix of the compile. *)
Theorem anonymous_object_names purpose prefix tags tags'
    (before after inner : list (Property TypeIR)) k required nl :
  Forall (fun p => leaf p = true) before ->
  Forall (fun p => leaf p = true) inner ->
  Forall (fun p => leaf p = true) after ->
  buildSchemaApplication
    [object None tags
       (before
        ++ mkProperty k required (mkEdge nl (object None tags' inner))
        :: after)]
    purpose prefix
  = inr (JObject
      [("schemas", JArray [ref_fragment prefix "__type"]);
       ("components", JObject [("schemas", JObject
          [("__type",
            object_fragment
              (map leaf_field before
               ++ (k, ref_fragment prefix "__type.o1")
               :: map leaf_field after)
              (required_keys
                 (before
                  ++ mkProperty k required (mkEdge nl (object None tags' inner))
                  :: after))
              tags);
           ("__type.o1",
            object_fragment (map leaf_field inner) (required_keys inner)
              tags')])]);
       ("purpose", JString (purpose_name purpose));
       ("prefix", JString prefix)]).
Proof.
  intros Hbefore Hinner Hafter.
  unfold buildSchemaApplication. cbn [traverse]. rewrite lower_object_eq.
  change (resolve_name None None empty_registry)
    with (Fresh "__type" "__type" empty_registry).
  cbv beta iota.
  rewrite traverse_app, (traverse_leaves _ _ _ _ _ Hbefore).
  cbn [traverse lower_property]. rewrite lower_object_eq.
  change (resolve_name None (Some "__type") (reserve "__type" empty_registry))
    with (Fresh "__type.o1" "__type"
            {| schemas := [("__type", JObject [])];
               counters := <["__type" := 1]> ∅ |}).
  cbv beta iota.
  rewrite (traverse_leaves _ _ _ _ _ Hinner). cbn [with_key].
  rewrite (traverse_leaves _ _ _ _ _ Hafter).
  reflexivity.
Qed.

(** An anonymous object with an anonymous [file] between two properties
    of primitive types. *)
Lemma anonymous_object_names_witness :
  buildSchemaApplication
    [object None []
       [property "id" false (atomic a_string);
        property "file" false
          (object None [] [property "url" false (atomic a_string)]);
        property "secret" false (atomic a_boolean)]]
    swagger (default_prefix swagger)
  = inr (JObject
      [("schemas", JArray [JObject [("$ref", JString "#/components/schemas/__type")]]);
       ("components", JObject [("schemas", JObject
          [("__type",
            object_fragment
              [("id", primitive_fragment a_string None false);
               ("file", JObject [("$ref", JString "#/components/schemas/__type.o1")]);
               ("secret", primitive_fragment a_boolean None false)]
              ["id"; "file"; "secret"] []);
           ("__type.o1",
            object_fragment [("url", primitive_fragment a_string None false)]
              ["url"] [])])]);
       ("purpose", JString "swagger");
       ("prefix", JString "#/components/schemas")]).
Proof.
  apply (anonymous_object_names swagger (default_prefix swagger) [] []
           [property "id" false (atomic a_string)]
           [property "secret" false (atomic a_boolean)]
           [property "url" false (atomic a_string)]
           "file" true false);
    repeat constructor.
Defined.

(** The primitive fixture is the document of such a type, its nested
    objects being the elements of an array. *)
Lemma primitive_object_application :
  buildSchemaApplication [ObjectPrimitive] swagger (default_prefix swagger)
    = inr test_application_object_primitive.
Proof. by vm_compute. Qed.

(** ** Unions *)

(** The alternatives of a union of primitives all carry the nullability
    of the edge into the union; the wrapper carries none. *)
Lemma lower_union_primitives purpose prefix container nullable
    (alternatives : list TypeIR) reg :
  Forall (fun t => is_primitive t = true) alternatives ->
  lower purpose prefix container nullable (union alternatives) reg
    = inr (oneOf_fragment (map (alternative_fragment nullable) alternatives),
           reg).
Proof.
  intros H. cbn [lower].
  assert (Ht : traverse (lower purpose prefix container nullable) alternatives reg
               = inr (map (alternative_fragment nullable) alternatives, reg)).
  { induction H as [|t ts Hp _ IH]; [done|].
    destruct t; try discriminate. cbn [traverse lower]. by rewrite IH. }
  by rewrite Ht.
Qed.

(** C4: for the aliased object, under the purpose swagger and any prefix,
    the document has one root schema, the array whose [items] is the
    [$ref] to [ObjectAlias.IMember], and one component of that name, whose
    [required] lists the six declared properties in the order of their
    declaration and whose [sex] is the [oneOf] of the number enum and the
    string enum, each with [nullable] true.  With the default prefix the
    document is the one the fixture expects.  In general the alternatives
    of a union of primitives carry the nullability of the edge into it. *)
Theorem aliased_object_application (prefix : string) :
  (exists fields,
     buildSchemaApplication [ObjectAlias] swagger prefix
       = inr (JObject
           [("schemas", JArray
               [JObject [("type", JString "array");
                         ("items", JObject
                            [("$ref", JString (prefix +:+ "/ObjectAlias.IMember"))]);
                         ("nullable", JBoolean false)]]);
            ("components", JObject [("schemas", JObject
               [("ObjectAlias.IMember", JObject
                   [("type", JString "object");
                    ("properties", JObject fields);
                    ("nullable", JBoolean false);
                    ("required", JArray
                       [JString "id"; JString "email"; JString "name";
                        JString "sex"; JString "age"; JString "dead"]);
                    ("jsDocTags", JArray [])])])]);
            ("purpose", JString "swagger");
            ("prefix", JString prefix)])
     /\ map fst fields = ["id"; "email"; "name"; "sex"; "age"; "dead"]
     /\ get "sex" fields
        = Some (JObject [("oneOf", JArray
            [JObject [("type", JString "number");
                      ("enum", JArray [JNumber 2; JNumber 1]);
                      ("nullable", JBoolean true)];
             JObject [("type", JString "string");
                      ("enum", JArray [JString "male"; JString "female"]);
                      ("nullable", JBoolean true)]])]))
  /\ buildSchemaApplication [ObjectAlias] swagger (default_prefix swagger)
       = inr test_application_object_alias
  /\ (forall purpose prefix container nullable alternatives reg,
        Forall (fun t => is_primitive t = true) alternatives ->
        lower purpose prefix container nullable (union alternatives) reg
          = inr (oneOf_fragment
                   (map (alternative_fragment nullable) alternatives), reg)).
Proof.
  split; [|split; [by vm_compute|]].
  - eexists. split; [|split].
    + reflexivity.
    + reflexivity.
    + reflexivity.
  - intros. by apply lower_union_primitives.
Qed.

(** ** The model against the fixtures *)

(** For the types of the five fixtures, under the purpose swagger and its
    default prefix, the model yields the documents the tests expect. *)
Lemma model_reproduces_fixtures :
  buildSchemaApplication [ObjectAlias] swagger (default_prefix swagger)
    = inr test_application_object_alias
  /\ buildSchemaApplication [ObjectPrimitive] swagger (default_prefix swagger)
    = inr test_application_object_primitive
  /\ buildSchemaApplication [ObjectIntersection] swagger (default_prefix swagger)
    = inr test_application_object_intersection
  /\ buildSchemaApplication [ObjectClosure] swagger (default_prefix swagger)
    = inr test_application_object_closure
  /\ buildSchemaApplication [ArrayUnion] swagger (default_prefix swagger)
    = inr test_application_array_union.
Proof. repeat split; by vm_compute. Qed.

(* ===================================================================== *)
(** * Further properties of the validator surfaces *)
(* ===================================================================== *)

Lemma validate_predicate_record {Value} (res : IValidation Value) m e c :
  validate.predicate res m e c = Return (m, record res (m, e, c)).
Proof. rewrite validate_predicate_eq. reflexivity. Qed.

(** A run of sites returns every [matched] and leaves the accumulator
    that recording the sites one by one gives. *)
Lemma validate_all_foldl {Value} (sites : list (Site (IError Value))) :
  forall res : IValidation Value,
    validate_all res sites = Return (map matched_of sites, foldl record res sites).
Proof.
  induction sites as [|[[m e] c] sites IH]; intros res; [done|].
  cbn [validate_all]. rewrite validate_predicate_record. cbn [bind fst snd].
  rewrite IH. reflexivity.
Qed.

Lemma record_errors {Value} (res : IValidation Value) site :
  errors (record res site) = errors res
  \/ (fatal site = true /\ errors (record res site) = errors res ++ [error_of site]).
Proof.
  unfold record. destruct (fatal site); [|by left]. cbn [errors].
  destruct (suppressed _ _); [left; apply app_nil_r|by right].
Qed.

Lemma foldl_record_errors {Value} (sites : list (Site (IError Value))) :
  forall res : IValidation Value,
    exists added, errors (foldl record res sites) = errors res ++ added.
Proof.
  induction sites as [|site sites IH]; intros res; cbn [foldl].
  - exists []. by rewrite app_nil_r.
  - destruct (IH (record res site)) as [added ->].
    destruct (record_errors res site) as [-> | [_ ->]]; [by exists added|].
    exists (error_of site :: added). by rewrite <- app_assoc.
Qed.

Lemma foldl_record_success {Value} (sites : list (Site (IError Value))) :
  forall res : IValidation Value,
    success res = false -> success (foldl record res sites) = false.
Proof.
  induction sites as [|site sites IH]; intros res Hs; [done|].
  cbn [foldl]. apply IH. unfold record. by destruct (fatal site).
Qed.

Lemma fatal_throwing {Value} (site : Site (IError Value)) :
  fatal (throwing site) = fatal site.
Proof. by destruct site as [[m e] c]. Qed.

Lemma suppressed_empty {Value} (flag : bool) (e : IError Value) :
  suppressed {| success := flag; errors := [] |} e = false.
Proof. reflexivity. Qed.

(** X4: the throwing surface and the accumulating surface agree on one
    plan.  Run on the same sites, from an accumulator without errors,
    [assertType.predicate] gets through without throwing exactly when
    [validate.predicate] leaves [success] true and no error, and both
    return the same [matched] values; when the throwing surface throws,
    the accumulating one has [success] false and the path, expected and
    value of the [TypeGuardError] are those of its first recorded error. *)
Theorem surfaces_agree {Value} (sites : list (Site (IError Value))) :
  exists res',
    validate_all {| success := true; errors := [] |} sites
      = Return (map matched_of sites, res')
    /\ match assert_all (map throwing sites) with
       | Return bs =>
           bs = map matched_of sites /\ success res' = true /\ errors res' = []
       | Throw e =>
           success res' = false
           /\ exists first rest,
                errors res' = first :: rest
                /\ e = TypeGuardError
                         {| method := "TSON.assertType";
                            props_path := Some (path first);
                            props_expected := expected first;
                            props_value := value first |}
       end.
Proof.
  rewrite validate_all_foldl. eexists. split; [reflexivity|].
  induction sites as [|[[m e] c] sites IH]; [done|].
  cbn [map foldl]. unfold throwing at 1. cbn [fst snd assert_all].
  destruct (fatal (m, e, c)) eqn:Hf.
  - rewrite assert_predicate_fatal by (by rewrite <- Hf). cbn [bind].
    replace (record {| success := true; errors := [] |} (m, e, c))
      with {| success := false; errors := [error_of (m, e, c)] |}
      by (unfold record; by rewrite Hf).
    split; [by apply foldl_record_success|].
    destruct (foldl_record_errors sites
                {| success := false; errors := [error_of (m, e, c)] |})
      as [added Hadded].
    exists (error_of (m, e, c)), added. split; [done|]. reflexivity.
  - rewrite assert_predicate_passes by (by rewrite <- Hf). cbn [bind].
    replace (record {| success := true; errors := [] |} (m, e, c))
      with {| success := true; errors := @nil (IError Value) |}
      by (unfold record; by rewrite Hf).
    destruct (assert_all (map throwing sites)) as [bs|err]; cbn [bind]; [|done].
    destruct IH as (-> & ? & ?). done.
Qed.

(** X5: what a run of [validate.predicate] calls adds to [errors] is, in
    order, a selection of the errors of its fatal sites: no error of a
    site with [matched] true or [exceptionable] false is recorded, none is
    recorded out of order, and at most one error is added per fatal
    site. *)
Theorem recorded_errors_sublist {Value} (res : IValidation Value)
    (sites : list (Site (IError Value))) :
  exists res' added,
    validate_all res sites = Return (map matched_of sites, res')
    /\ errors res' = errors res ++ added
    /\ added `sublist_of`
         map error_of (filter (fun site => fatal site = true) sites)
    /\ length (errors res')
       <= length (errors res)
          + length (filter (fun site => fatal site = true) sites).
Proof.
  rewrite validate_all_foldl.
  assert (Hsub : exists added,
    errors (foldl record res sites) = errors res ++ added
    /\ added `sublist_of`
         map error_of (filter (fun site => fatal site = true) sites)).
  { revert res. induction sites as [|site sites IH]; intros res; cbn [foldl].
    - exists []. split; [by rewrite app_nil_r|constructor].
    - destruct (IH (record res site)) as (added & -> & Hadded).
      unfold record. destruct (fatal site) eqn:Hf.
      + rewrite filter_cons_True by done. cbn [errors map].
        destruct (suppressed res (error_of site)).
        * exists added. rewrite app_nil_r. split; [done|by constructor].
        * exists (error_of site :: added). rewrite <- app_assoc.
          split; [done|by constructor].
      + rewrite filter_cons_False by (by rewrite Hf). by exists added. }
  destruct Hsub as (added & Heq & Hadded).
  eexists _, added. split; [reflexivity|]. split; [done|]. split; [done|].
  rewrite Heq, length_app. apply sublist_length in Hadded.
  rewrite length_map in Hadded. lia.
Qed.

Lemma is_prefix_refl (s : string) : is_prefix s s.
Proof. exists EmptyString. by rewrite append_empty_r. Qed.

Lemma prefix_covered_app {Value} (errs added : list (IError Value)) e :
  prefix_covered errs e -> prefix_covered (errs ++ added) e.
Proof. intros (r & Hr & Hp). exists r. split; [|done]. apply elem_of_app. by left. Qed.

Lemma record_prefix_covered {Value} (res : IValidation Value) site :
  fatal site = true -> prefix_covered (errors (record res site)) (error_of site).
Proof.
  intros Hf. unfold record. rewrite Hf. cbn [errors].
  destruct (suppressed res (error_of site)) eqn:Hs.
  - rewrite app_nil_r. unfold suppressed in Hs.
    destruct (last (errors res)) as [l|] eqn:Hl; [|done].
    exists l. split; [|by apply covered_spec].
    apply last_Some in Hl as [l' ->]. apply elem_of_app. right. by left.
  - exists (error_of site). split; [|apply is_prefix_refl].
    apply elem_of_app. right. by left.
Qed.

(** X6: after any run of [validate.predicate] calls, for every site with
    [matched] false and [exceptionable] true the path of its error is,
    character by character, a prefix of the path of some recorded error:
    of the error itself, or of the error whose path made the call leave it
    out.  The recorded error need not concern the same property. *)
Theorem fatal_sites_prefix_covered {Value} (res : IValidation Value)
    (sites : list (Site (IError Value))) :
  exists res',
    validate_all res sites = Return (map matched_of sites, res')
    /\ forall site, site ∈ sites -> fatal site = true ->
         prefix_covered (errors res') (error_of site).
Proof.
  rewrite validate_all_foldl. eexists. split; [reflexivity|].
  revert res. induction sites as [|s sites IH]; intros res site Hin Hf.
  - by apply elem_of_nil in Hin.
  - cbn [foldl]. apply elem_of_cons in Hin as [-> | Hin]; [|by apply IH].
    destruct (foldl_record_errors sites (record res s)) as [added ->].
    by apply prefix_covered_app, record_prefix_covered.
Qed.

(** X7: only the calls with [matched] false and [exceptionable] true
    count.  A run of [validate.predicate] calls leaves the accumulator
    that the run of its fatal sites alone leaves, wherever the other
    calls are interleaved. *)
Theorem only_fatal_sites_count {Value} (res : IValidation Value)
    (sites : list (Site (IError Value))) :
  exists res',
    validate_all res sites = Return (map matched_of sites, res')
    /\ validate_all res (filter (fun site => fatal site = true) sites)
       = Return (map matched_of (filter (fun site => fatal site = true) sites),
                 res').
Proof.
  rewrite !validate_all_foldl. eexists. split; [reflexivity|]. f_equal. f_equal.
  revert res. induction sites as [|site sites IH]; intros res; [done|].
  cbn [foldl]. destruct (fatal site) eqn:Hf.
  - rewrite filter_cons_True by done. cbn [foldl]. apply IH.
  - rewrite filter_cons_False by (by rewrite Hf).
    replace (record res site) with res by (unfold record; by rewrite Hf).
    apply IH.
Qed.

Lemma record_covered {Value} (res : IValidation Value) site l :
  success res = false ->
  last (errors res) = Some l ->
  (fatal site = true -> is_prefix (path (error_of site)) (path l)) ->
  record res site = res.
Proof.
  intros Hs Hl Hp. unfold record. destruct (fatal site); [|done].
  unfold suppressed. rewrite Hl.
  rewrite (proj2 (covered_spec _ _) (Hp eq_refl)), app_nil_r.
  destruct res. cbn in *. by subst.
Qed.

(** X8: one wrong leaf gives one error.  After the error of a fatal site
    is recorded on an accumulator without errors, any run of further calls
    whose fatal sites report paths that are prefixes of that first path
    (the parents of the leaf, up to the root) leaves exactly that one
    error, with [success] false. *)
Theorem branch_collapses {Value} (flag : bool) (closure : unit -> IError Value)
    (sites : list (Site (IError Value))) :
  Forall (fun site => fatal site = true ->
            is_prefix (path (error_of site)) (path (closure tt))) sites ->
  validate_all {| success := flag; errors := [] |}
    ((false, true, closure) :: sites)
  = Return (false :: map matched_of sites,
            {| success := false; errors := [closure tt] |}).
Proof.
  intros Hsites. rewrite validate_all_foldl. cbn [map foldl]. do 2 f_equal.
  change (record {| success := flag; errors := [] |} (false, true, closure))
    with {| success := false; errors := [closure tt] |}.
  induction Hsites as [|site sites Hsite _ IH]; [done|].
  cbn [foldl]. by rewrite (record_covered _ site (closure tt)).
Qed.

(** The four reports up the branch of [$input.a.b.c] leave the one error
    of the leaf. *)
Lemma branch_collapses_witness :
  validate_all fresh (map site_at branch_paths)
  = Return ([false; false; false; false],
            {| success := false;
               errors := [{| path := "$input.a.b.c"; expected := "string";
                             value := tt |}] |}).
Proof.
  apply (branch_collapses true
           (fun _ => {| path := "$input.a.b.c"; expected := "string";
                        value := tt |})
           (map site_at ["$input.a.b"; "$input.a"; "$input"])).
  repeat apply List.Forall_cons; try apply List.Forall_nil; intros _.
  - exists ".c". reflexivity.
  - exists ".b.c". reflexivity.
  - exists ".a.b.c". reflexivity.
Defined.

Lemma record_pushes {Value} (res : IValidation Value) site :
  fatal site = true ->
  (forall l, last (errors res) = Some l ->
             ~ is_prefix (path (error_of site)) (path l)) ->
  record res site
  = {| success := false; errors := errors res ++ [error_of site] |}.
Proof.
  intros Hf Hl. unfold record. rewrite Hf. unfold suppressed.
  destruct (last (errors res)) as [l|] eqn:Hlast; [|done].
  destruct (validate.covered (path l) (error_of site)) eqn:Hc; [|done].
  apply covered_spec in Hc. by destruct (Hl l).
Qed.

Lemma foldl_record_pushes {Value} (sites : list (Site (IError Value))) :
  forall res : IValidation Value,
    Forall (fun site => fatal site = true) sites ->
    no_redundant_successor (errors res ++ map error_of sites) ->
    errors (foldl record res sites) = errors res ++ map error_of sites.
Proof.
  induction sites as [|site sites IH]; intros res Hf Hok; cbn [foldl map].
  - by rewrite app_nil_r.
  - apply Forall_cons in Hf as [Hsite Hf].
    rewrite record_pushes; [|done|].
    + rewrite IH; cbn [errors]; [by rewrite <- app_assoc|done|].
      by rewrite <- app_assoc.
    + intros l Hl. apply last_Some in Hl as [before Hl].
      apply (Hok before l (error_of site) (map error_of sites)).
      cbn [map]. rewrite Hl, <- app_assoc. reflexivity.
Qed.

(** X9: errors on separate branches are all recorded.  When every site
    of a run is fatal and none of their errors has a path that is a
    prefix of (or equal to) the path of the error just before it, the run
    on an accumulator without errors records every error, in the order of
    the calls. *)
Theorem separate_branches_recorded {Value} (flag : bool)
    (sites : list (Site (IError Value))) :
  Forall (fun site => fatal site = true) sites ->
  no_redundant_successor (map error_of sites) ->
  exists res',
    validate_all {| success := flag; errors := [] |} sites
      = Return (map matched_of sites, res')
    /\ errors res' = map error_of sites.
Proof.
  intros Hf Hok. rewrite validate_all_foldl. eexists. split; [reflexivity|].
  by rewrite foldl_record_pushes.
Qed.

(** The errors of two sibling properties are both recorded. *)
Lemma separate_branches_recorded_witness :
  exists res',
    validate_all fresh (map site_at sibling_paths)
      = Return ([false; false], res')
    /\ errors res' = map error_of (map site_at sibling_paths).
Proof.
  apply (separate_branches_recorded true (map site_at sibling_paths)).
  - repeat constructor.
  - intros before a b after Heq [t Ht].
    destruct before as [|x before].
    + injection Heq as <- <- _. cbv in Ht. discriminate Ht.
    + destruct before as [|y before]; [discriminate Heq|].
      destruct before; discriminate Heq.
Defined.

Lemma append_cancel_l (p s t : string) : p +:+ s = p +:+ t -> s = t.
Proof.
  induction p as [|c p IH]; [done|]. rewrite !append_cons. intros [= H]. auto.
Qed.

Lemma append_cancel_r (s t r : string) : s +:+ r = t +:+ r -> s = t.
Proof.
  revert t. induction s as [|c s IH]; intros [|d t] H.
  - done.
  - apply (f_equal String.length) in H. rewrite !length_append in H.
    cbn [String.length] in H. lia.
  - apply (f_equal String.length) in H. rewrite !length_append in H.
    cbn [String.length] in H. lia.
  - rewrite !append_cons in H. injection H as -> H. f_equal. by apply IH.
Qed.

(** X10: the message of [halt] identifies the entry point: the errors
    thrown for two different names are different. *)
Theorem halt_identifies_entry_point {Value A} (name1 name2 : string) :
  name1 <> name2 -> (halt name1 : result Value A) <> halt name2.
Proof.
  intros Hne. unfold halt. intros [= H]. apply Hne.
  apply append_cancel_l in H. by apply append_cancel_r in H.
Qed.

(** The errors of [is] and of [validate] differ. *)
Lemma halt_identifies_entry_point_witness :
  (is_ tt : result unit bool) <> halt "validate".
Proof.
  apply (halt_identifies_entry_point "is" "validate"). discriminate.
Defined.

(** X11: the test compares characters, not path segments.  After the
    error of a property whose name extends the name of a sibling property
    (such as [ab] before [a]) has been recorded, the error of the sibling
    is left out, although its path is a different one. *)
Theorem sibling_error_left_out {Value} (flag : bool)
    (base a x expected1 expected2 : string) (value1 value2 : Value) :
  validate_all {| success := flag; errors := [] |}
    [(false, true, fun _ => {| path := base +:+ "." +:+ a +:+ x;
                               expected := expected1; value := value1 |});
     (false, true, fun _ => {| path := base +:+ "." +:+ a;
                               expected := expected2; value := value2 |})]
  = Return ([false; false],
            {| success := false;
               errors := [{| path := base +:+ "." +:+ a +:+ x;
                             expected := expected1; value := value1 |}] |})
  /\ (x <> EmptyString -> base +:+ "." +:+ a +:+ x <> base +:+ "." +:+ a).
Proof.
  split.
  - rewrite validate_all_foldl. cbn [map foldl]. do 2 f_equal.
    change (record {| success := flag; errors := [] |} _)
      with {| success := false;
              errors := [{| path := base +:+ "." +:+ a +:+ x;
                            expected := expected1; value := value1 |}] |}.
    eapply record_covered; [done|done|]. intros _. cbn [error_of snd path].
    exists x. by rewrite !append_assoc.
  - intros Hx H. apply Hx.
    rewrite <- (append_empty_r a) in H at 2.
    by do 3 apply append_cancel_l in H.
Qed.

(* ===================================================================== *)
(** * The fragment of every node *)
(* ===================================================================== *)

(** ** What the fragments of the model are *)












(** ** The entries of the registry *)











(** ** The nullability rule, by type *)

(** In the five fixtures the unions have primitive and array alternatives
    only, and every alternative carries [nullable]. *)
Lemma fixtures_as_claimed :
  Forall (fun app => application_as_claimed app = true)
    [test_application_object_alias; test_application_object_primitive;
     test_application_object_intersection; test_application_object_closure;
     test_application_array_union].
Proof. repeat constructor. Qed.



